(** * ghiseul-monitor: the monitor engine of [main.py]

    A shallow embedding of the class [GhiseulMonitor] (the flow steps
    [_login] and [_debit], the cycle [execute], the polling loop [run],
    [quit]) and of the status route [monitor_route] with its global
    [OUTPUT].

    The browser, the clock and [time.sleep] are external: they are an
    [Environment], a state machine the program calls into, whose every
    call may raise.  The program is written in a state-and-exception monad
    over a [World] that holds the environment's state, the monitor's
    mutable attributes ([self.driver], [self.wait]), the global [OUTPUT]
    and a log of the calls made, in order.

    Not modelled: the [log.*] and [print(traceback...)] calls (only the
    read of [self.driver.current_url] inside one log message is kept, since
    it is a call to the browser), argument parsing, Flask.  Floats are
    idealised as exact rationals; [round(x, 2)] is rounding to the nearest
    hundredth, ties to even.  A double is not always the decimal it
    prints as, so where the exact value lies halfway between two
    hundredths Python's [round] may go either way while [round2] goes to
    the even one; what is proved of durations is proved of the idealised
    values. *)

From Stdlib Require Import List String Ascii Bool ZArith QArith Qround Lia Lqa.
Import ListNotations.
Open Scope string_scope.

(** ** Exceptions and results *)

(** An exception, by the name of its class.  Every exception that the
    driver, [time.sleep] or a missing attribute raises derives from
    [Exception], so [except Exception] catches every [exn]. *)
Inductive exn : Type := Exn (cls : string).

Definition AttributeError : exn := Exn "AttributeError".
Definition KeyError : exn := Exn "KeyError".
Definition TimeoutException : exn := Exn "TimeoutException".
Definition WebDriverException : exn := Exn "WebDriverException".

Inductive result (A : Type) : Type :=
| Ok (a : A)
| Raise (e : exn).
Arguments Ok {A} a.
Arguments Raise {A} e.

(** ** Values of the status mapping *)

(** A [webdriver.Chrome] object and a [WebElement], as opaque handles. *)
Definition session := nat.
Definition element := nat.

(** What [jsonify] is given: a dict from field name to value, in insertion
    order.  The only nested dict is the one of flow results. *)
Inductive value : Type :=
| VBool (b : bool)
| VStr (s : string)
| VFloat (q : Q)
| VDict (d : list (string * bool)).

Definition pydict := list (string * value).

Definition keys {V : Type} (d : list (string * V)) : list string := map fst d.
Definition values {V : Type} (d : list (string * V)) : list V := map snd d.

(** [d[k]], or nothing where Python raises [KeyError]. *)
Fixpoint lookup {V : Type} (k : string) (d : list (string * V)) : option V :=
  match d with
  | [] => None
  | (k', v) :: rest => if k' =? k then Some v else lookup k rest
  end.

(** [d[k] = v]: an existing key keeps its place, a new key goes last. *)
Fixpoint setitem {V : Type} (k : string) (v : V) (d : list (string * V))
  : list (string * V) :=
  match d with
  | [] => [(k, v)]
  | (k', v') :: rest =>
      if k' =? k then (k', v) :: rest else (k', v') :: setitem k v rest
  end.

(** ** Strings and numbers *)

(** [str.upper] on ASCII letters. *)
Definition upper_ascii (c : ascii) : ascii :=
  let n := nat_of_ascii c in
  if (97 <=? n)%nat && (n <=? 122)%nat then ascii_of_nat (n - 32) else c.

Fixpoint upper (s : string) : string :=
  match s with
  | EmptyString => EmptyString
  | String c rest => String (upper_ascii c) (upper rest)
  end.

(** Truth value of a string: non-empty. *)
Definition truthy (s : string) : bool :=
  match s with EmptyString => false | String _ _ => true end.

(** Nearest integer, ties to the even one. *)
Definition round_half_even (x : Q) : Z :=
  let f := Qfloor x in
  match Qcompare (x - inject_Z f) (1 # 2) with
  | Lt => f
  | Gt => (f + 1)%Z
  | Eq => if Z.even f then f else (f + 1)%Z
  end.

(** [round(x, 2)]. *)
Definition round2 (x : Q) : Q :=
  Qred (inject_Z (round_half_even (x * 100)) / 100).

(** ** The log of calls *)

(** Each call writes one entry: [webdriver.Chrome(options=...)],
    [driver.quit()], [driver.get(url)], [driver.current_url],
    [wait.until(EC.visibility_of_element_located((By.ID, id)))],
    [driver.find_element(By.ID, id)], the element's [click()],
    [send_keys(text)] and [submit()], [time.sleep(secs)], [time.time()]
    with the value read, [datetime.now().strftime(...)] with the string
    made, and [OUTPUT = o]. *)
Inductive event : Type :=
| EChrome (options : list string)
| EQuit (d : session)
| EGet (d : session) (url : string)
| ECurrentUrl (d : session)
| EWaitVisible (d : session) (timeout : Z) (id : string)
| EFindElement (d : session) (id : string)
| EClick (e : element)
| ESendKeys (e : element) (text : string)
| ESubmit (e : element)
| ESleep (secs : Q)
| ETime (t : Q)
| ENow (s : string)
| ESetOUTPUT (o : pydict).

Definition is_lookup (ev : event) : bool :=
  match ev with
  | EWaitVisible _ _ _ | EFindElement _ _ => true
  | _ => false
  end.

Definition is_sleep (ev : event) : bool :=
  match ev with ESleep _ => true | _ => false end.

Definition is_publish (ev : event) : bool :=
  match ev with ESetOUTPUT _ => true | _ => false end.

(** The values read by [time.time()], in order. *)
Fixpoint clock_reads (tr : list event) : list Q :=
  match tr with
  | [] => []
  | ETime t :: rest => t :: clock_reads rest
  | _ :: rest => clock_reads rest
  end.

(** ** The environment *)

Record Environment (B : Type) : Type := {
  webdriver_Chrome : list string -> B -> result session * B;
  driver_quit : session -> B -> result unit * B;
  driver_get : session -> string -> B -> result unit * B;
  driver_current_url : session -> B -> result string * B;
  wait_until_visible : session -> Z -> string -> B -> result element * B;
  driver_find_element : session -> string -> B -> result element * B;
  element_click : element -> B -> result unit * B;
  element_send_keys : element -> string -> B -> result unit * B;
  element_submit : element -> B -> result unit * B;
  time_sleep : Q -> B -> result unit * B;
  time_time : B -> Q * B;
  datetime_now : B -> string * B
}.
Arguments webdriver_Chrome {B} _ _ _.
Arguments driver_quit {B} _ _ _.
Arguments driver_get {B} _ _ _ _.
Arguments driver_current_url {B} _ _ _.
Arguments wait_until_visible {B} _ _ _ _ _.
Arguments driver_find_element {B} _ _ _ _.
Arguments element_click {B} _ _ _.
Arguments element_send_keys {B} _ _ _ _.
Arguments element_submit {B} _ _ _.
Arguments time_sleep {B} _ _ _.
Arguments time_time {B} _ _.
Arguments datetime_now {B} _ _.

(** ** The monitor *)

(** The attributes set once by [__init__]. [institution] is the string the
    command line gives ([type=str]); [str()] of it is itself. *)
Record GhiseulMonitor : Type := {
  username : string;
  password : string;
  institution : string;
  persistent_driver : bool;
  render_timeout : Z;
  driver_dir : string
}.

(* Pages required by the monitor *)
Definition login_page : string := "https://www.ghiseul.ro/ghiseul/public/".
Definition debit_page : string := "https://www.ghiseul.ro/ghiseul/public/debite".

(* Login elements *)
Definition login_username_element : string := "username".
Definition login_password_element : string := "passwordP".
Definition login_passwordT_element : string := "passwordT".
Definition login_form_element : string := "login".

(* Debit elements *)
Definition debit_show_element : string := "showDebiteBtn_".
Definition debit_pay_form : string := "detalii_".

(** The dict built by [execute], whose five keys are fixed; [as_dict] is
    that dict. *)
Record Output : Type := {
  o_flows : list (string * bool);
  o_success : bool;
  o_error : string;
  o_duration : Q;
  o_date : string
}.

Definition as_dict (o : Output) : pydict :=
  [ ("flows", VDict (o_flows o));
    ("success", VBool (o_success o));
    ("error", VStr (o_error o));
    ("duration", VFloat (o_duration o));
    ("date", VStr (o_date o)) ].

(* Output dict *)
Definition output : Output :=
  {| o_flows := []; o_success := false; o_error := ""; o_duration := 0;
     o_date := "" |}.

(* Shortcut variables *)
Definition short_delay : Q := 1 # 2.
Definition flows : list string := ["login"; "debit"].

Definition chrome_options : list string :=
  [ "--user-data-dir=/tmp/chrome"; "--headless"; "--no-sandbox";
    "--window-size=1920,1080"; "--disable-dev-shm-usage" ].

(** The new [output["error"]] once a flow named [flow] has returned the
    message [flow_err]: extended when the message is non-empty. *)
Definition error_after (error flow flow_err : string) : string :=
  if truthy flow_err
  then error ++ upper flow ++ ": " ++ flow_err ++ "; "
  else error.

(** The calls a flow step may make, given the driver and the wait the
    monitor holds: navigation, location reads and lookups on that driver,
    element actions, and the short pacing delay. *)
Definition step_event (dv : option session) (wv : option (session * Z))
  (ev : event) : bool :=
  match ev with
  | EGet d _ | ECurrentUrl d | EFindElement d _ =>
      match dv with Some d' => Nat.eqb d d' | None => false end
  | EWaitVisible d t _ =>
      match wv with
      | Some (d', t') => (Nat.eqb d d' && Z.eqb t t')%bool
      | None => false
      end
  | EClick _ | ESendKeys _ _ | ESubmit _ => true
  | ESleep secs => Qeq_bool secs short_delay
  | _ => false
  end.

(** The calls of a whole cycle: those of its steps, and the readings of
    the date and of the clock. *)
Definition cycle_event (dv : option session) (wv : option (session * Z))
  (ev : event) : bool :=
  match ev with
  | ETime _ | ENow _ => true
  | _ => step_event dv wv ev
  end.

Section Monitor.

Context {B : Type}.
Variable env : Environment B.

(** The state: the environment's, the monitor's two mutable attributes,
    the global [OUTPUT], and the log. *)
Record World : Type := {
  browser : B;
  driver : option session;
  wait : option (session * Z);
  OUTPUT : pydict;
  trace : list event
}.

Definition M (A : Type) : Type := World -> result A * World.

Definition ret {A : Type} (a : A) : M A := fun w => (Ok a, w).

Definition bind {A C : Type} (m : M A) (k : A -> M C) : M C :=
  fun w =>
    match m w with
    | (Ok a, w') => k a w'
    | (Raise e, w') => (Raise e, w')
    end.

Definition raise {A : Type} (e : exn) : M A := fun w => (Raise e, w).

(** [try: body / except Exception: return r], then [k]. *)
Definition try_except {A R : Type} (body : M A) (r : R) (k : A -> M R)
  : M R :=
  fun w =>
    match body w with
    | (Ok a, w') => k a w'
    | (Raise _, w') => (Ok r, w')
    end.

(** [w] once the environment has moved to [b] on the call [ev]. *)
Definition logged (w : World) (b : B) (ev : event) : World :=
  {| browser := b; driver := driver w; wait := wait w;
     OUTPUT := OUTPUT w; trace := trace w ++ [ev] |}.

(** One call to the environment: run it on the browser state, log it. *)
Definition call {A : Type} (ev : event) (f : B -> result A * B) : M A :=
  fun w =>
    let (r, b) := f (browser w) in
    (r, logged w b ev).

Notation "x <- m ;; k" := (bind m (fun x => k))
  (at level 61, m at next level, right associativity).
Notation "m ;; k" := (bind m (fun _ => k))
  (at level 61, right associativity).
Notation "'try' x <- body 'except_return' r ;; k" :=
  (try_except body r (fun x => k))
  (at level 61, x pattern, body at next level, r at next level,
   right associativity).

(** *** Attributes of [self] *)

(** [self.driver] and [self.wait]: [AttributeError] until
    [__create_driver] has set them. *)
Definition self_driver : M session :=
  fun w =>
    match driver w with
    | Some d => (Ok d, w)
    | None => (Raise AttributeError, w)
    end.

Definition self_wait : M (session * Z) :=
  fun w =>
    match wait w with
    | Some wt => (Ok wt, w)
    | None => (Raise AttributeError, w)
    end.

Definition set_driver (d : session) : M unit :=
  fun w =>
    (Ok tt, {| browser := browser w; driver := Some d; wait := wait w;
               OUTPUT := OUTPUT w; trace := trace w |}).

Definition set_wait (wt : session * Z) : M unit :=
  fun w =>
    (Ok tt, {| browser := browser w; driver := driver w; wait := Some wt;
               OUTPUT := OUTPUT w; trace := trace w |}).

(** [OUTPUT = o] *)
Definition set_OUTPUT (o : pydict) : M unit :=
  fun w =>
    (Ok tt, {| browser := browser w; driver := driver w; wait := wait w;
               OUTPUT := o; trace := trace w ++ [ESetOUTPUT o] |}).

(** *** Calls to the environment *)

Definition Chrome (options : list string) : M session :=
  call (EChrome options) (webdriver_Chrome env options).

Definition driver_quit_ (d : session) : M unit :=
  call (EQuit d) (driver_quit env d).

Definition get (d : session) (url : string) : M unit :=
  call (EGet d url) (driver_get env d url).

Definition current_url (d : session) : M string :=
  call (ECurrentUrl d) (driver_current_url env d).

(** [wait.until(EC.visibility_of_element_located((By.ID, id)))] *)
Definition until_visible (wt : session * Z) (id : string) : M element :=
  call (EWaitVisible (fst wt) (snd wt) id)
       (wait_until_visible env (fst wt) (snd wt) id).

Definition find_element (d : session) (id : string) : M element :=
  call (EFindElement d id) (driver_find_element env d id).

Definition click (e : element) : M unit :=
  call (EClick e) (element_click env e).

Definition send_keys (e : element) (text : string) : M unit :=
  call (ESendKeys e text) (element_send_keys env e text).

Definition submit (e : element) : M unit :=
  call (ESubmit e) (element_submit env e).

Definition sleep (secs : Q) : M unit :=
  call (ESleep secs) (time_sleep env secs).

Definition time : M Q :=
  fun w =>
    let (t, b) := time_time env (browser w) in
    (Ok t, logged w b (ETime t)).

Definition now : M string :=
  fun w =>
    let (s, b) := datetime_now env (browser w) in
    (Ok s, logged w b (ENow s)).

Variable self : GhiseulMonitor.

(** *** [__create_driver] *)
Definition __create_driver : M unit :=
  d <- Chrome chrome_options ;;
  set_driver d ;;
  d <- self_driver ;;
  set_wait (d, render_timeout self).

(** *** [__init__], the attributes themselves being [self] *)
Definition __init__ : M unit :=
  (* Create a long-living driver *)
  if persistent_driver self then __create_driver else ret tt.

(** *** [quit] *)
Definition quit : M unit :=
  d <- self_driver ;;
  driver_quit_ d.

(** *** [_login] *)
Definition _login : M (bool * string) :=
  (* Visit the login page *)
  d <- self_driver ;;
  get d login_page ;;
  (* Check if we are already logged in and skip the execution *)
  d <- self_driver ;;
  url <- current_url d ;;
  if negb (url =? login_page) then
    (* the warning's message reads self.driver.current_url again *)
    d <- self_driver ;;
    _ <- current_url d ;;
    ret (true, "")
  else
  (* Find form, username and password input fields *)
  try (login_form, username_field, password_field, passwordT_field) <-
    (wt <- self_wait ;;
     login_form <- until_visible wt login_form_element ;;
     d <- self_driver ;;
     username_field <- find_element d login_username_element ;;
     d <- self_driver ;;
     password_field <- find_element d login_password_element ;;
     d <- self_driver ;;
     passwordT_field <- find_element d login_passwordT_element ;;
     ret (login_form, username_field, password_field, passwordT_field))
  except_return (false, "Could not find login for or input fields") ;;
  (* Enter username and password with short delays *)
  try _ <-
    (click username_field ;;
     send_keys username_field (username self) ;;
     sleep short_delay ;;
     click passwordT_field ;;
     click password_field ;;
     send_keys password_field (password self) ;;
     sleep short_delay)
  except_return (false, "Could not fill in login form") ;;
  (* Submit the form *)
  try _ <- submit login_form
  except_return (false, "Could not submit login form") ;;
  (* Everything went as expected *)
  ret (true, "").

(** *** [_debit] *)
Definition _debit : M (bool * string) :=
  (* Visit the debit page if we are not already there *)
  d <- self_driver ;;
  url <- current_url d ;;
  (if negb (url =? debit_page) then
     d <- self_driver ;;
     get d debit_page
   else ret tt) ;;
  (* Find the institution acordion and wait for it to be rendered *)
  try inst_element <-
    (wt <- self_wait ;;
     until_visible wt (institution self))
  except_return (false, "Could not find institution element") ;;
  (* Wait until the show element is present and click it *)
  try _ <-
    (wt <- self_wait ;;
     show_element <- until_visible wt (debit_show_element ++ institution self) ;;
     click show_element)
  except_return (false, "Could not find show button for instituion") ;;
  (* Wait for the pay form to be rendered *)
  try pay_element <-
    (wt <- self_wait ;;
     until_visible wt (debit_pay_form ++ institution self))
  except_return (false, "Could not find pay button for instituion") ;;
  (* Everything went as expected *)
  ret (true, "").

(** *** [execute] *)

(** [getattr(self, name)()] for the flow methods. *)
Definition getattr_call (name : string) : M (bool * string) :=
  if name =? "_login" then _login
  else if name =? "_debit" then _debit
  else raise AttributeError.

(** [d[k]] *)
Definition getitem {V : Type} (d : list (string * V)) (k : string) : M V :=
  match lookup k d with
  | Some v => ret v
  | None => raise KeyError
  end.

(** The body of [for flow in self.flows]. *)
Definition flow_body (flow : string) (output : Output) : M Output :=
  flow_timer0 <- time ;;
  r <- getattr_call ("_" ++ flow) ;;
  let '(flow_output, flow_err) := r in
  t <- time ;;
  let flow_timer := t - flow_timer0 in
  ret {| o_flows := setitem flow flow_output (o_flows output);
         o_success := o_success output;
         o_error := error_after (o_error output) flow flow_err;
         o_duration := round2 (o_duration output + flow_timer);
         o_date := o_date output |}.

Fixpoint for_flows (fl : list string) (output : Output) : M Output :=
  match fl with
  | [] => ret output
  | flow :: rest =>
      output <- flow_body flow output ;;
      for_flows rest output
  end.

(** [[output["flows"][f] for f in fl]] *)
Fixpoint flow_values (d : list (string * bool)) (fl : list string)
  : M (list bool) :=
  match fl with
  | [] => ret []
  | f :: rest =>
      v <- getitem d f ;;
      vs <- flow_values d rest ;;
      ret (v :: vs)
  end.

(** [x in l], for booleans. *)
Definition contains (x : bool) (l : list bool) : bool :=
  existsb (Bool.eqb x) l.

Definition execute_flows (fl : list string) : M Output :=
  (* Clone the output dict *)
  date <- now ;;
  let output :=
    {| o_flows := o_flows output; o_success := o_success output;
       o_error := o_error output; o_duration := o_duration output;
       o_date := date |} in
  (* Run flows *)
  output <- for_flows fl output ;;
  (* Final log output *)
  vs <- flow_values (o_flows output) fl ;;
  ret {| o_flows := o_flows output;
         o_success := negb (contains false vs);
         o_error := o_error output;
         o_duration := o_duration output;
         o_date := o_date output |}.

Definition execute : M Output := execute_flows flows.

(** *** [run] *)

(** One pass through the body of [while True].  The counter [i] only
    appears in log messages. *)
Definition run_iteration (refresh : Z) : M unit :=
  (* Create an ephemeral driver *)
  (if negb (persistent_driver self) then __create_driver else ret tt) ;;
  (* Execute the monitor flows and send the ouput to the global OUTPUT *)
  o <- execute ;;
  set_OUTPUT (as_dict o) ;;
  (* Sleep for refresh time *)
  sleep (inject_Z (refresh * 60)) ;;
  (* Close the ephemeral driver *)
  (if negb (persistent_driver self) then
     d <- self_driver ;;
     driver_quit_ d
   else ret tt).

(** [run], cut after [n] iterations: the loop itself never ends, except
    by an exception. *)
Fixpoint run (n : nat) (refresh : Z) : M unit :=
  match n with
  | O => ret tt
  | S n' =>
      run_iteration refresh ;;
      run n' refresh
  end.

(** *** [monitor_route] *)
Definition monitor_route (w : World) : pydict := OUTPUT w.

End Monitor.

(** The state in which the process starts: no driver yet, [OUTPUT = {}]. *)
Definition start {B : Type} (b : B) : World :=
  {| browser := b; driver := None; wait := None; OUTPUT := []; trace := [] |}.

Open Scope list_scope.

(** ** Vocabulary of the properties *)

(** In the cycle started in [w], [_login] returned [r1], then [_debit] was
    run and returned [r2], and the cycle ended in [w']. *)
Definition cycle_steps {B : Type} (env : Environment B) (self : GhiseulMonitor)
  (w : World) (r1 r2 : bool * string) (w' : World) : Prop :=
  exists date w0 t0 w1 w2 t1 w3 t2 w4 w5 t3,
    now env w = (Ok date, w0) /\
    time env w0 = (Ok t0, w1) /\
    _login env self w1 = (Ok r1, w2) /\
    time env w2 = (Ok t1, w3) /\
    time env w3 = (Ok t2, w4) /\
    _debit env self w4 = (Ok r2, w5) /\
    time env w5 = (Ok t3, w').

(** The calls logged between [w] and a later [w']. *)
Definition new_events {B : Type} (w w' : @World B) : list event :=
  skipn (List.length (trace w)) (trace w').

(** [w'] differs from [w] only by the environment's state and by calls
    satisfying [P] added to the log. *)
Definition extends {B : Type} (P : event -> bool) (w w' : @World B) : Prop :=
  driver w' = driver w /\ wait w' = wait w /\ OUTPUT w' = OUTPUT w /\
  exists evs, trace w' = trace w ++ evs /\ forallb P evs = true.

(** [m], run while the monitor holds driver [dv] and wait [wv], only
    makes calls satisfying [P] and assigns nothing. *)
Definition frame {B A : Type} (dv : option session)
  (wv : option (session * Z)) (P : event -> bool) (m : @M B A) : Prop :=
  forall w r w', driver w = dv -> wait w = wv -> m w = (r, w') ->
                 extends P w w'.

(** The fields of a serialized snapshot. *)
Definition status_fields : list string :=
  ["flows"; "success"; "error"; "duration"; "date"].











(** A result pair of a flow step: success with no message, or failure with
    one. *)
Definition step_result (r : bool * string) : Prop :=
  r = (true, "") \/ (fst r = false /\ truthy (snd r) = true).

(** A snapshot as a cycle builds it: one entry per configured flow, and
    [success] the conjunction of the entries. *)
Definition coherent (o : Output) : Prop :=
  keys (o_flows o) = flows /\
  o_success o = forallb (fun v => v) (values (o_flows o)).

(** What [OUTPUT] holds after the calls [tr], having held [init] before
    them: the mapping last assigned. *)
Definition store_at (init : pydict) (tr : list event) : pydict :=
  fold_left (fun held ev =>
               match ev with ESetOUTPUT o => o | _ => held end) tr init.

(** An assignment to [OUTPUT] assigns the snapshot of a cycle. *)
Definition snapshot_event (ev : event) : Prop :=
  match ev with
  | ESetOUTPUT d => exists o, d = as_dict o /\ coherent o
  | _ => True
  end.

(** From [w] to [w'] calls were logged, [OUTPUT] follows the assignments
    among them, and each assigned the snapshot of a cycle. *)
Definition store_since {B : Type} (w w' : @World B) : Prop :=
  exists evs,
    trace w' = trace w ++ evs /\
    OUTPUT w' = store_at (OUTPUT w) evs /\
    Forall snapshot_event evs.

(** [m] assigns [OUTPUT] only snapshots of cycles. *)
Definition publishes {B A : Type} (m : @M B A) : Prop :=
  forall w r w', m w = (r, w') -> store_since w w'.

(** Among the calls [evs] logged after [base], every assignment to
    [OUTPUT] assigns the snapshot that a cycle has just returned: that
    cycle began at a point of these calls, [execute] returned that
    snapshot, and the calls of the cycle are the ones right before the
    assignment. *)
Definition cycles_published {B : Type} (env : Environment B)
  (self : GhiseulMonitor) (base evs : list event) : Prop :=
  forall pre d post,
    evs = pre ++ ESetOUTPUT d :: post ->
    exists (w1 : @World B) o w2 started,
      execute env self w1 = (Ok o, w2) /\
      trace w1 = base ++ started /\
      pre = started ++ new_events w1 w2 /\
      trace w2 = base ++ pre /\
      d = as_dict o.

(** [m] logs its calls, [OUTPUT] follows its assignments, and each
    assignment publishes the snapshot of the cycle just completed. *)
Definition tracked {B A : Type} (env : Environment B) (self : GhiseulMonitor)
  (m : @M B A) : Prop :=
  forall w r w',
    m w = (r, w') ->
    exists evs,
      trace w' = trace w ++ evs /\
      OUTPUT w' = store_at (OUTPUT w) evs /\
      cycles_published env self (trace w) evs.


(** The calls that follow the first assignment to [OUTPUT], and those
    that follow the first closing of a session. *)
Fixpoint after_publish (evs : list event) : list event :=
  match evs with
  | [] => []
  | ESetOUTPUT _ :: rest => rest
  | _ :: rest => after_publish rest
  end.

Fixpoint after_quit (evs : list event) : list event :=
  match evs with
  | [] => []
  | EQuit _ :: rest => rest
  | _ :: rest => after_quit rest
  end.

(** In the calls of an iteration, the session is closed after the
    snapshot is written and before the loop sleeps. *)
Definition closes_before_sleeping (evs : list event) : bool :=
  existsb is_sleep (after_quit (after_publish evs)).

(** ** Vocabulary of the further properties *)

Definition is_quit (ev : event) : bool :=
  match ev with EQuit _ => true | _ => false end.

Definition is_chrome (ev : event) : bool :=
  match ev with EChrome _ => true | _ => false end.

Definition is_get (ev : event) : bool :=
  match ev with EGet _ _ => true | _ => false end.

(** Acting on an element, or pausing between two actions. *)
Definition is_interaction (ev : event) : bool :=
  match ev with
  | EClick _ | ESendKeys _ _ | ESubmit _ | ESleep _ => true
  | _ => false
  end.


(** A wait that is bounded by the configured render timeout. *)
Definition bounded_wait (self : GhiseulMonitor) (ev : event) : Prop :=
  match ev with
  | EWaitVisible _ t _ => t = render_timeout self
  | _ => True
  end.

(** The wait the monitor holds was made for the driver it holds, with the
    configured timeout. *)
Definition held (self : GhiseulMonitor) (dv : option session)
  (wv : option (session * Z)) : Prop :=
  wv = option_map (fun d => (d, render_timeout self)) dv.

(** Run from a state whose driver and wait satisfy [J], [m] ends in such a
    state, having only made calls satisfying [P]. *)
Definition keeps {B A : Type}
  (J : option session -> option (session * Z) -> Prop) (P : event -> Prop)
  (m : @M B A) : Prop :=
  forall w r w',
    J (driver w) (wait w) -> m w = (r, w') ->
    J (driver w') (wait w') /\
    exists evs, trace w' = trace w ++ evs /\ Forall P evs.

(** What a failed flow named [flow] with message [msg] adds to the error
    text. *)
Definition error_part (flow : string) (r : bool * string) : string :=
  if fst r then "" else (flow ++ ": " ++ snd r ++ "; ")%string.

(** [self] with another driver storage location. *)
Definition with_driver_dir (self : GhiseulMonitor) (dir : string)
  : GhiseulMonitor :=
  {| username := username self; password := password self;
     institution := institution self;
     persistent_driver := persistent_driver self;
     render_timeout := render_timeout self; driver_dir := dir |}.

(** ** A scripted environment

    A browser that answers the calls made to it from a list of replies
    fixed in advance, one per call, and a clock that reads out a list of
    times.  It gives the concrete runs below. *)
Module Scripted.

Inductive reply : Type :=
| Fine                    (* the call returns *)
| Loc (url : string)      (* the location read *)
| Obj (handle : nat)      (* the driver or element returned *)
| Fail (e : exn).         (* the call raises *)

Record script : Type := {
  replies : list reply;
  clock : list Q
}.

Definition next (s : script) : reply * script :=
  match replies s with
  | [] => (Fine, s)
  | r :: rest => (r, {| replies := rest; clock := clock s |})
  end.

Definition unit_call (s : script) : result unit * script :=
  let (r, s') := next s in
  (match r with Fail e => Raise e | _ => Ok tt end, s').

Definition url_call (s : script) : result string * script :=
  let (r, s') := next s in
  (match r with Fail e => Raise e | Loc u => Ok u | _ => Ok "" end, s').

Definition obj_call (s : script) : result nat * script :=
  let (r, s') := next s in
  (match r with Fail e => Raise e | Obj h => Ok h | _ => Ok O end, s').

Definition tick (s : script) : Q * script :=
  match clock s with
  | [] => (0, s)
  | t :: rest => (t, {| replies := replies s; clock := rest |})
  end.

Definition env : Environment script :=
  {| webdriver_Chrome := fun _ => obj_call;
     driver_quit := fun _ => unit_call;
     driver_get := fun _ _ => unit_call;
     driver_current_url := fun _ => url_call;
     wait_until_visible := fun _ _ _ => obj_call;
     driver_find_element := fun _ _ => obj_call;
     element_click := fun _ => unit_call;
     element_send_keys := fun _ _ => unit_call;
     element_submit := fun _ => unit_call;
     time_sleep := fun _ => unit_call;
     time_time := tick;
     datetime_now := fun s => ("2024-03-01 12:00:00", s) |}.

(** A monitor for institution [123]. *)
Definition monitor (persistent : bool) : GhiseulMonitor :=
  {| username := "user"; password := "secret"; institution := "123";
     persistent_driver := persistent; render_timeout := 30;
     driver_dir := "/tmp/chrome" |}.

(** The state after [__init__] on a browser that follows [rs] and a
    clock that reads [ts]. *)
Definition booted (persistent : bool) (rs : list reply) (ts : list Q)
  : World :=
  snd (__init__ env (monitor persistent)
         (start {| replies := rs; clock := ts |})).

(** The replies of a sign-in on the login page that meets no failure:
    navigation, location, the form and three fields, then the fills and
    the submit. *)
Definition login_ok : list reply :=
  [ Fine; Loc login_page; Obj 1%nat; Obj 2%nat; Obj 3%nat; Obj 4%nat;
    Fine; Fine; Fine; Fine; Fine; Fine; Fine; Fine ].

(** Where the portal lands after a sign-in. *)
Definition portal_home : string := "https://www.ghiseul.ro/ghiseul/".

(** The replies of a debit check that meets no failure, from another
    page: location, navigation, the institution element, the show
    button and its click, the pay form. *)
Definition debit_ok : list reply :=
  [ Loc portal_home; Fine; Obj 5%nat; Obj 6%nat; Fine; Obj 7%nat ].

(** *** Scenarios, each the state after [__init__] *)

(** Both steps succeed; sign-in takes 1.004 s, the debit check 2.004 s. *)
Definition healthy : World :=
  booted true (Obj 9%nat :: login_ok ++ debit_ok)
    [10; 11004 # 1000; 11004 # 1000; 13008 # 1000].

(** Both steps succeed, and the wall clock is set back by a second
    during the sign-in. *)
Definition clock_set_back : World :=
  booted true (Obj 9%nat :: login_ok ++ debit_ok) [10; 9; 9; 9].

(** The login form never shows; the debit check then goes through. *)
Definition login_form_missing : World :=
  booted true
    (Obj 9%nat :: [Fine; Loc login_page; Fail TimeoutException] ++ debit_ok)
    [10; 40; 40; 42].

(** Sign-in succeeds, the institution element shows, and the wait for
    the show button times out. *)
Definition show_button_missing : World :=
  booted true
    (Obj 9%nat :: login_ok
       ++ [Loc portal_home; Fine; Obj 5%nat; Fail TimeoutException])
    [10; 12; 12; 42].

(** The portal redirects away from the login page: already signed in. *)
Definition already_signed_in : World :=
  booted true [Obj 9%nat; Fine; Loc debit_page; Loc debit_page] [].

(** The browser fails to load the login page. *)
Definition navigation_fails : World :=
  booted true [Obj 9%nat; Fail WebDriverException] [].

(** Ephemeral mode, before the first iteration; the browser then
    behaves. *)
Definition ephemeral : World :=
  booted false (Obj 9%nat :: login_ok ++ debit_ok) [].

End Scripted.

(** ** Further scenarios on the scripted environment *)
Module Scenarios.

(** The script of [Scripted.healthy], before [__init__]. *)
Definition healthy_script : Scripted.script :=
  {| Scripted.replies :=
       Scripted.Obj 9%nat :: Scripted.login_ok ++ Scripted.debit_ok;
     Scripted.clock := [10; 11004 # 1000; 11004 # 1000; 13008 # 1000] |}.

(** Ephemeral mode; the session is created and the login page then fails
    to load. *)
Definition ephemeral_navigation_fails : World :=
  Scripted.booted false
    [Scripted.Obj 9%nat; Scripted.Fail WebDriverException] [].

(** On another page, the debit check goes through. *)
Definition debit_succeeds : World :=
  Scripted.booted true (Scripted.Obj 9%nat :: Scripted.debit_ok) [].

(** The institution element shows and the show button does not. *)
Definition debit_show_button_missing : World :=
  Scripted.booted true
    [ Scripted.Obj 9%nat; Scripted.Loc Scripted.portal_home; Scripted.Fine;
      Scripted.Obj 5%nat; Scripted.Fail TimeoutException ] [].


(** The portal redirects away from the login page, and the browser then
    fails when asked for its location once more. *)
Definition redirect_then_location_fails : World :=
  Scripted.booted true
    [ Scripted.Obj 9%nat; Scripted.Fine; Scripted.Loc debit_page;
      Scripted.Fail WebDriverException ] [].

End Scenarios.

(** * Properties *)

(** ** Numbers: [round2] *)

Lemma round_half_even_nonneg (x : Q) : 0 <= x -> (0 <= round_half_even x)%Z.
Proof.
  intros Hx. unfold round_half_even.
  assert (Hf : (0 <= Qfloor x)%Z).
  { change 0%Z with (Qfloor 0). now apply Qfloor_resp_le. }
  destruct (Qcompare (x - inject_Z (Qfloor x)) (1 # 2)); try lia.
  destruct (Z.even (Qfloor x)); lia.
Qed.

Lemma round2_nonneg (x : Q) : 0 <= x -> 0 <= round2 x.
Proof.
  intros Hx. unfold round2. rewrite Qred_correct.
  assert (H : (0 <= round_half_even (x * 100))%Z).
  { apply round_half_even_nonneg.
    apply Qmult_le_0_compat; [assumption|discriminate]. }
  unfold Qdiv. apply Qmult_le_0_compat; [|discriminate].
  change 0 with (inject_Z 0). now rewrite <- Zle_Qle.
Qed.

(** ** Dicts *)

Lemma keys_setitem_new {V : Type} (k : string) (v : V)
  (d : list (string * V)) :
  ~ In k (keys d) -> keys (setitem k v d) = keys d ++ [k].
Proof.
  induction d as [|[k' v'] d IH]; simpl; intros Hk; [reflexivity|].
  destruct (String.eqb_spec k' k) as [->|Hne].
  - exfalso. apply Hk. now left.
  - simpl. f_equal. apply IH. intros Hin. apply Hk. now right.
Qed.

(** ** What a computation leaves alone *)

Section Frames.

Context {B : Type}.
Variable env : Environment B.

Lemma extends_refl P (w : @World B) : extends P w w.
Proof.
  repeat split. exists []. now rewrite app_nil_r.
Qed.

Lemma extends_trans P (w1 w2 w3 : @World B) :
  extends P w1 w2 -> extends P w2 w3 -> extends P w1 w3.
Proof.
  intros (Hd & Hw & Ho & evs & Ht & Hp) (Hd' & Hw' & Ho' & evs' & Ht' & Hp').
  repeat split; try congruence.
  exists (evs ++ evs'). split.
  - now rewrite Ht', Ht, app_assoc.
  - rewrite forallb_app, Hp, Hp'. reflexivity.
Qed.

Lemma extends_weaken (P Q : event -> bool) (w w' : @World B) :
  (forall ev, P ev = true -> Q ev = true) -> extends P w w' -> extends Q w w'.
Proof.
  intros HPQ (Hd & Hw & Ho & evs & Ht & Hp).
  repeat split; try assumption. exists evs. split; [assumption|].
  rewrite forallb_forall in *. auto.
Qed.

Lemma frame_weaken {A} dv wv (P Q : event -> bool) (m : @M B A) :
  (forall ev, P ev = true -> Q ev = true) -> frame dv wv P m -> frame dv wv Q m.
Proof.
  intros HPQ Hm w r w' Hd Hw E. eapply extends_weaken; eauto.
Qed.

Lemma frame_ret {A} dv wv P (a : A) : frame (B:=B) dv wv P (ret a).
Proof.
  intros w r w' _ _ E. inversion E; subst. apply extends_refl.
Qed.

Lemma frame_raise {A} dv wv P (e : exn) : frame dv wv P (@raise B A e).
Proof.
  intros w r w' _ _ E. inversion E; subst. apply extends_refl.
Qed.

Lemma frame_bind {A C} dv wv P (m : @M B A) (k : A -> M C) :
  frame dv wv P m -> (forall a, frame dv wv P (k a)) ->
  frame dv wv P (bind m k).
Proof.
  intros Hm Hk w r w' Hd Hw E. unfold bind in E.
  destruct (m w) as [[a|e] w1] eqn:Em.
  - pose proof (Hm _ _ _ Hd Hw Em) as H1.
    apply (extends_trans P w w1 w' H1).
    destruct H1 as (Hd1 & Hw1 & _).
    eapply Hk; eauto; congruence.
  - inversion E; subst. eapply Hm; eauto.
Qed.

Lemma frame_try {A R} dv wv P (body : @M B A) (r0 : R) (k : A -> M R) :
  frame dv wv P body -> (forall a, frame dv wv P (k a)) ->
  frame dv wv P (try_except body r0 k).
Proof.
  intros Hm Hk w r w' Hd Hw E. unfold try_except in E.
  destruct (body w) as [[a|e] w1] eqn:Em.
  - pose proof (Hm _ _ _ Hd Hw Em) as H1.
    apply (extends_trans P w w1 w' H1).
    destruct H1 as (Hd1 & Hw1 & _).
    eapply Hk; eauto; congruence.
  - inversion E; subst. eapply Hm; eauto.
Qed.

Lemma frame_call {A} dv wv (P : event -> bool) ev (f : B -> result A * B) :
  P ev = true -> frame dv wv P (call ev f).
Proof.
  intros HP w r w' _ _ E. unfold call in E.
  destruct (f (browser w)) as [r1 b1]. inversion E; subst; clear E.
  repeat split. exists [ev]. split; [reflexivity|].
  simpl. now rewrite HP.
Qed.

Lemma frame_time dv wv (P : event -> bool) :
  (forall t, P (ETime t) = true) -> frame dv wv P (time env).
Proof.
  intros HP w r w' _ _ E. unfold time in E.
  destruct (time_time env (browser w)) as [t b1]. inversion E; subst; clear E.
  repeat split. exists [ETime t]. split; [reflexivity|].
  simpl. now rewrite HP.
Qed.

Lemma frame_now dv wv (P : event -> bool) :
  (forall s, P (ENow s) = true) -> frame dv wv P (now env).
Proof.
  intros HP w r w' _ _ E. unfold now in E.
  destruct (datetime_now env (browser w)) as [s b1]. inversion E; subst; clear E.
  repeat split. exists [ENow s]. split; [reflexivity|].
  simpl. now rewrite HP.
Qed.

(** Reading [self.driver] gives the driver held, or raises. *)
Lemma frame_self_driver {C} dv wv P (k : session -> @M B C) :
  (forall d, dv = Some d -> frame dv wv P (k d)) ->
  frame dv wv P (bind self_driver k).
Proof.
  intros Hk w r w' Hd Hw E. unfold bind, self_driver in E.
  destruct (driver w) as [d|] eqn:Ed.
  - eapply (Hk d); eauto. congruence.
  - inversion E; subst. apply extends_refl.
Qed.

Lemma frame_self_wait {C} dv wv P (k : session * Z -> @M B C) :
  (forall wt, wv = Some wt -> frame dv wv P (k wt)) ->
  frame dv wv P (bind self_wait k).
Proof.
  intros Hk w r w' Hd Hw E. unfold bind, self_wait in E.
  destruct (wait w) as [wt|] eqn:Ed.
  - eapply (Hk wt); eauto. congruence.
  - inversion E; subst. apply extends_refl.
Qed.

Variable self : GhiseulMonitor.

Ltac frame_step :=
  match goal with
  | |- frame _ _ _ (bind self_driver _) =>
      apply frame_self_driver; intros ? Heq;
      first [injection Heq as <- | subst]
  | |- frame _ _ _ (bind self_wait _) =>
      apply frame_self_wait; intros [? ?] Heq;
      first [injection Heq as <- <- | subst]
  | |- frame _ _ _ (bind _ _) => apply frame_bind; [|intros ?]
  | |- frame _ _ _ (try_except _ _ _) => apply frame_try; [|intros ?]
  | |- frame _ _ _ (ret _) => apply frame_ret
  | |- frame _ _ _ (raise _) => apply frame_raise
  | |- frame _ _ _ (call _ _) =>
      apply frame_call; simpl;
      rewrite ?Nat.eqb_refl, ?Z.eqb_refl; reflexivity
  | |- frame _ _ _ (if ?c then _ else _) => destruct c
  | |- frame _ _ _ (match ?p with (_, _) => _ end) => destruct p
  end.

Lemma frame__login dv wv : frame dv wv (step_event dv wv) (_login env self).
Proof.
  unfold _login, get, current_url, until_visible, find_element, click,
    send_keys, submit, sleep.
  repeat frame_step.
Qed.

Lemma frame__debit dv wv : frame dv wv (step_event dv wv) (_debit env self).
Proof.
  unfold _debit, get, current_url, until_visible, click.
  repeat frame_step.
Qed.

End Frames.

(** ** The cycle, step by step *)

Section Cycle.

Context {B : Type}.
Variable env : Environment B.
Variable self : GhiseulMonitor.

Lemma bind_Ok {A C} (m : M A) (k : A -> M C) (w w' : @World B) (c : C) :
  bind m k w = (Ok c, w') ->
  exists a w1, m w = (Ok a, w1) /\ k a w1 = (Ok c, w').
Proof.
  unfold bind. destruct (m w) as [[a|e] w1]; [eauto|discriminate].
Qed.

(** [execute] is the two steps in sequence, each between two readings of
    the clock, and the snapshot is assembled from what they return. *)
Lemma execute_unfold (w : World) :
  execute env self w =
  bind (now env) (fun date =>
  bind (time env) (fun t0 =>
  bind (_login env self) (fun r1 =>
  bind (time env) (fun t1 =>
  bind (time env) (fun t2 =>
  bind (_debit env self) (fun r2 =>
  bind (time env) (fun t3 =>
  ret {| o_flows := [("login", fst r1); ("debit", fst r2)];
         o_success := negb (contains false [fst r1; fst r2]);
         o_error := error_after (error_after "" "login" (snd r1))
                                "debit" (snd r2);
         o_duration := round2 (round2 (0 + (t1 - t0)) + (t3 - t2));
         o_date := date |}))))))) w.
Proof.
  unfold execute, execute_flows, flows, for_flows, flow_body.
  change (getattr_call env self ("_" ++ "login")) with (_login env self).
  change (getattr_call env self ("_" ++ "debit")) with (_debit env self).
  unfold bind, ret.
  destruct (now env w) as [[date|e] w0]; cbv beta iota; [|reflexivity].
  destruct (time env w0) as [[t0|e] w1]; cbv beta iota; [|reflexivity].
  destruct (_login env self w1) as [[[b1 e1]|e] w2]; cbv beta iota;
    [|reflexivity].
  destruct (time env w2) as [[t1|e] w3]; cbv beta iota; [|reflexivity].
  destruct (time env w3) as [[t2|e] w4]; cbv beta iota; [|reflexivity].
  destruct (_debit env self w4) as [[[b2 e2]|e] w5]; cbv beta iota;
    [|reflexivity].
  destruct (time env w5) as [[t3|e] w6]; cbv beta iota; [|reflexivity].
  reflexivity.
Qed.

(** *** The loop over any list of flow names *)

Lemma flow_body_flows flow (o o' : Output) (w w' : World) :
  flow_body env self flow o w = (Ok o', w') ->
  exists b, o_flows o' = setitem flow b (o_flows o).
Proof.
  unfold flow_body. intros E.
  apply bind_Ok in E. destruct E as (t0 & w1 & _ & E).
  apply bind_Ok in E. destruct E as ([b e] & w2 & _ & E).
  apply bind_Ok in E. destruct E as (t1 & w3 & _ & E).
  inversion E; subst; clear E. now exists b.
Qed.

Lemma for_flows_keys (fl : list string) :
  forall (o o' : Output) (w w' : World),
    for_flows env self fl o w = (Ok o', w') ->
    NoDup (keys (o_flows o) ++ fl) ->
    keys (o_flows o') = keys (o_flows o) ++ fl.
Proof.
  induction fl as [|flow rest IH]; intros o o' w w' E Hnd; simpl in E.
  - inversion E; subst. now rewrite app_nil_r.
  - apply bind_Ok in E. destruct E as (o1 & w1 & E1 & E).
    apply flow_body_flows in E1. destruct E1 as (b & Hb).
    assert (Hnew : ~ In flow (keys (o_flows o))).
    { apply NoDup_remove_2 in Hnd. intros Hin. apply Hnd.
      apply in_or_app. now left. }
    assert (Hk1 : keys (o_flows o1) = keys (o_flows o) ++ [flow]).
    { rewrite Hb. now apply keys_setitem_new. }
    rewrite (IH _ _ _ _ E); rewrite Hk1, <- app_assoc; [reflexivity|].
    exact Hnd.
Qed.

Lemma flow_values_skip (p : string * bool) (d : list (string * bool))
  (fl : list string) (w : World) :
  ~ In (fst p) fl ->
  flow_values (B:=B) (p :: d) fl w = flow_values d fl w.
Proof.
  destruct p as [k v]. simpl. revert w.
  induction fl as [|f rest IH]; intros w Hk; [reflexivity|].
  simpl. unfold bind, getitem. simpl.
  destruct (String.eqb_spec k f) as [->|Hne].
  - exfalso. apply Hk. now left.
  - destruct (lookup f d); [|reflexivity].
    unfold ret at 1 3. rewrite IH; [reflexivity|].
    intros Hin. apply Hk. now right.
Qed.

(** With one entry per name, the values looked up by name are the values
    of the mapping, and no lookup raises. *)
Lemma flow_values_all (d : list (string * bool)) (w : World) :
  NoDup (keys d) ->
  flow_values (B:=B) d (keys d) w = (Ok (values d), w).
Proof.
  induction d as [|[k v] d IH]; intros Hnd; [reflexivity|].
  inversion Hnd as [|? ? Hnotin Hnd']; subst.
  simpl. unfold bind, getitem. simpl. rewrite String.eqb_refl.
  unfold ret at 1.
  rewrite (flow_values_skip (k, v) d (keys d) w Hnotin), (IH Hnd').
  reflexivity.
Qed.

Lemma not_contains_false (vs : list bool) :
  negb (contains false vs) = forallb (fun v => v) vs.
Proof.
  induction vs as [|[|] vs IH]; simpl; auto.
Qed.

(** A cycle over any list of distinct flow names: the mapping has those
    names as keys, in that order, and [success] is the conjunction of
    its values. *)
Lemma execute_flows_spec (fl : list string) (w w' : World) (o : Output) :
  NoDup fl ->
  execute_flows env self fl w = (Ok o, w') ->
  keys (o_flows o) = fl /\
  o_success o = forallb (fun v => v) (values (o_flows o)).
Proof.
  intros Hnd E. unfold execute_flows in E.
  apply bind_Ok in E. destruct E as (date & w0 & _ & E).
  apply bind_Ok in E. destruct E as (o1 & w1 & Eloop & E).
  apply for_flows_keys in Eloop; [|exact Hnd]. simpl in Eloop.
  apply bind_Ok in E. destruct E as (vs & w2 & Evs & E).
  inversion E; subst; clear E. simpl. split; [reflexivity|].
  rewrite flow_values_all in Evs by exact Hnd.
  inversion Evs; subst. apply not_contains_false.
Qed.

Lemma NoDup_flows : NoDup flows.
Proof.
  unfold flows. repeat constructor; simpl; intuition discriminate.
Qed.

End Cycle.

(** ** The snapshot of a cycle *)

Section Snapshot.

Context {B : Type}.
Variable env : Environment B.
Variable self : GhiseulMonitor.

Lemma execute_inv (w w' : World) (o : Output) :
  execute env self w = (Ok o, w') ->
  exists date w0 t0 w1 r1 w2 t1 w3 t2 w4 r2 w5 t3,
    now env w = (Ok date, w0) /\
    time env w0 = (Ok t0, w1) /\
    _login env self w1 = (Ok r1, w2) /\
    time env w2 = (Ok t1, w3) /\
    time env w3 = (Ok t2, w4) /\
    _debit env self w4 = (Ok r2, w5) /\
    time env w5 = (Ok t3, w') /\
    o = {| o_flows := [("login", fst r1); ("debit", fst r2)];
           o_success := negb (contains false [fst r1; fst r2]);
           o_error := error_after (error_after "" "login" (snd r1))
                                  "debit" (snd r2);
           o_duration := round2 (round2 (0 + (t1 - t0)) + (t3 - t2));
           o_date := date |}.
Proof.
  rewrite execute_unfold. intros E.
  apply bind_Ok in E. destruct E as (date & w0 & E0 & E).
  apply bind_Ok in E. destruct E as (t0 & w1 & E1 & E).
  apply bind_Ok in E. destruct E as (r1 & w2 & E2 & E).
  apply bind_Ok in E. destruct E as (t1 & w3 & E3 & E).
  apply bind_Ok in E. destruct E as (t2 & w4 & E4 & E).
  apply bind_Ok in E. destruct E as (r2 & w5 & E5 & E).
  apply bind_Ok in E. destruct E as (t3 & w6 & E6 & E).
  inversion E; subst; clear E.
  exists date, w0, t0, w1, r1, w2, t1, w3, t2, w4, r2, w5, t3.
  repeat split; assumption.
Qed.


(** C2.  In every snapshot that [execute] returns, [success] is true
    exactly when every value of the [flows] mapping is true; it is the
    conjunction of the values of the final mapping. *)
Theorem execute_success_iff_all_flows (w w' : World) (o : Output) :
  execute env self w = (Ok o, w') ->
  o_success o = forallb (fun v => v) (values (o_flows o)) /\
  (o_success o = true <->
   forall flow v, In (flow, v) (o_flows o) -> v = true).
Proof.
  intros E.
  destruct (execute_flows_spec env self flows w w' o NoDup_flows E)
    as [_ Hs].
  split; [exact Hs|]. rewrite Hs, forallb_forall. unfold values. split.
  - intros H flow v Hin. apply H.
    change v with (snd (flow, v)). now apply in_map.
  - intros H v Hin. apply in_map_iff in Hin.
    destruct Hin as ([flow v'] & <- & Hin). simpl. eapply H; eauto.
Qed.

End Snapshot.

(** ** The flow steps *)

Section Steps.

Context {B : Type}.
Variable env : Environment B.
Variable self : GhiseulMonitor.

Lemma new_events_app (w w' : @World B) (evs : list event) :
  trace w' = trace w ++ evs -> new_events w w' = evs.
Proof.
  unfold new_events. intros ->.
  induction (trace w) as [|ev tr IH]; simpl; auto.
Qed.

Lemma bind_self_driver {C} (k : session -> M C) (w : @World B) d :
  driver w = Some d -> bind self_driver k w = k d w.
Proof.
  intros H. unfold bind, self_driver. now rewrite H.
Qed.

Lemma bind_call_Ok {A C} ev (f : B -> result A * B) (k : A -> M C) w a b :
  f (browser w) = (Ok a, b) -> bind (call ev f) k w = k a (logged w b ev).
Proof.
  intros H. unfold bind, call. now rewrite H.
Qed.










(** C7 (amended).  When the location read after navigating to the login
    page is not the login page, [_login] attempts no lookup of the form or
    of a field: it reads the location once more, for the warning it logs,
    and returns [(True, "")] at once when that read returns; when that
    read raises, its exception leaves the step. *)
Theorem login_redirect_short_circuit (w : World) d b1 u b2 r b3 :
  driver w = Some d ->
  driver_get env d login_page (browser w) = (Ok tt, b1) ->
  driver_current_url env d b1 = (Ok u, b2) ->
  u <> login_page ->
  driver_current_url env d b2 = (r, b3) ->
  exists w',
    _login env self w
    = (match r with Ok _ => Ok (true, ""%string) | Raise e => Raise e end,
       w') /\
    browser w' = b3 /\
    new_events w w' = [EGet d login_page; ECurrentUrl d; ECurrentUrl d] /\
    existsb is_lookup (new_events w w') = false.
Proof.
  intros Hd Hget Hurl Hne Hurl'.
  unfold _login, get, current_url.
  rewrite (bind_self_driver _ w d Hd).
  rewrite (bind_call_Ok _ _ _ w tt b1 Hget).
  rewrite (bind_self_driver _ (logged w b1 _) d Hd).
  rewrite (bind_call_Ok _ _ _ (logged w b1 _) u b2 Hurl).
  destruct (String.eqb_spec u login_page) as [->|_]; [contradiction|].
  cbn [negb].
  rewrite (bind_self_driver _ (logged (logged w b1 _) b2 _) d Hd).
  unfold bind, call. cbn [browser logged]. rewrite Hurl'.
  exists (logged (logged (logged w b1 (EGet d login_page)) b2
                    (ECurrentUrl d)) b3 (ECurrentUrl d)).
  assert (Hev : new_events w
                  (logged (logged (logged w b1 (EGet d login_page)) b2
                             (ECurrentUrl d)) b3 (ECurrentUrl d))
                = [EGet d login_page; ECurrentUrl d; ECurrentUrl d]).
  { apply new_events_app. simpl. now rewrite <- !app_assoc. }
  rewrite Hev. split; [destruct r; reflexivity|]. now repeat split.
Qed.

End Steps.

(** ** The clock and the duration *)

Section Duration.

Context {B : Type}.
Variable env : Environment B.
Variable self : GhiseulMonitor.

Lemma call_inv {A} ev (f : B -> result A * B) (w w' : World) r :
  call ev f w = (r, w') ->
  exists b, f (browser w) = (r, b) /\ w' = logged w b ev.
Proof.
  unfold call. destruct (f (browser w)) as [r1 b1].
  intros E. inversion E; subst. now exists b1.
Qed.

Lemma time_inv (w w' : World) t :
  time env w = (Ok t, w') -> exists b, w' = logged w b (ETime t).
Proof.
  unfold time. destruct (time_time env (browser w)) as [t1 b1].
  intros E. inversion E; subst. now exists b1.
Qed.

Lemma now_inv (w w' : World) s :
  now env w = (Ok s, w') -> exists b, w' = logged w b (ENow s).
Proof.
  unfold now. destruct (datetime_now env (browser w)) as [s1 b1].
  intros E. inversion E; subst. now exists b1.
Qed.

Lemma clock_reads_app (tr1 tr2 : list event) :
  clock_reads (tr1 ++ tr2) = clock_reads tr1 ++ clock_reads tr2.
Proof.
  induction tr1 as [|ev tr1 IH]; [reflexivity|].
  destruct ev; simpl; rewrite IH; reflexivity.
Qed.

(** A flow step does not read the clock. *)
Lemma clock_reads_step dv wv (evs : list event) :
  forallb (step_event dv wv) evs = true -> clock_reads evs = [].
Proof.
  induction evs as [|ev evs IH]; [reflexivity|].
  simpl. intros H. apply andb_prop in H. destruct H as [Hev H].
  destruct ev; simpl in *; try discriminate; auto.
Qed.

Lemma step_event_cycle_event dv wv ev :
  step_event dv wv ev = true -> cycle_event dv wv ev = true.
Proof.
  destruct ev; simpl; auto.
Qed.

(** A cycle assigns nothing and only makes the calls of its steps and
    the readings of the date and the clock. *)
Lemma frame_execute dv wv :
  frame dv wv (cycle_event dv wv) (execute env self).
Proof.
  intros w r w' Hd Hw E. rewrite execute_unfold in E.
  revert w r w' Hd Hw E.
  change (frame dv wv (cycle_event dv wv)
    (bind (now env) (fun date =>
     bind (time env) (fun t0 =>
     bind (_login env self) (fun r1 =>
     bind (time env) (fun t1 =>
     bind (time env) (fun t2 =>
     bind (_debit env self) (fun r2 =>
     bind (time env) (fun t3 =>
     ret {| o_flows := [("login", fst r1); ("debit", fst r2)];
            o_success := negb (contains false [fst r1; fst r2]);
            o_error := error_after (error_after "" "login" (snd r1))
                                   "debit" (snd r2);
            o_duration := round2 (round2 (0 + (t1 - t0)) + (t3 - t2));
            o_date := date |}))))))))).
  repeat first
    [ apply frame_ret
    | apply frame_now; reflexivity
    | apply frame_time; reflexivity
    | apply (frame_weaken _ _ _ _ _ (step_event_cycle_event dv wv)
               (frame__login env self dv wv))
    | apply (frame_weaken _ _ _ _ _ (step_event_cycle_event dv wv)
               (frame__debit env self dv wv))
    | apply frame_bind; [|intros ?] ].
Qed.

(** C6 (amended).  The duration of a snapshot is the running total of
    the step durations, each measured between two readings of the clock
    and added in flow order, the total being rounded to 2 decimals after
    each addition; it is not negative when the clock did not go back
    during either step. *)
Theorem execute_duration_accumulates_rounded (w w' : World) (o : Output) :
  execute env self w = (Ok o, w') ->
  exists t0 t1 t2 t3,
    clock_reads (new_events w w') = [t0; t1; t2; t3] /\
    o_duration o = round2 (round2 (0 + (t1 - t0)) + (t3 - t2)) /\
    (t0 <= t1 -> t2 <= t3 -> 0 <= o_duration o).
Proof.
  intros E. apply execute_inv in E.
  destruct E as (date & w0 & t0 & w1 & r1 & w2 & t1 & w3 & t2 & w4 &
                 r2 & w5 & t3 & E0 & E1 & E2 & E3 & E4 & E5 & E6 & ->).
  exists t0, t1, t2, t3.
  apply (frame__login env self _ _ _ _ _ eq_refl eq_refl) in E2.
  apply (frame__debit env self _ _ _ _ _ eq_refl eq_refl) in E5.
  destruct E2 as (_ & _ & _ & evs1 & Ht1 & Hs1).
  destruct E5 as (_ & _ & _ & evs2 & Ht2 & Hs2).
  apply now_inv in E0. destruct E0 as (b0 & ->).
  apply time_inv in E1. destruct E1 as (b1 & ->).
  apply time_inv in E3. destruct E3 as (b3 & ->).
  apply time_inv in E4. destruct E4 as (b4 & ->).
  apply time_inv in E6. destruct E6 as (b6 & ->).
  split; [|split].
  - rewrite (new_events_app w _
               ([ENow date; ETime t0] ++ evs1 ++ [ETime t1; ETime t2]
                ++ evs2 ++ [ETime t3])).
    + rewrite !clock_reads_app.
      rewrite (clock_reads_step _ _ _ Hs1), (clock_reads_step _ _ _ Hs2).
      reflexivity.
    + simpl trace in *. rewrite Ht2. simpl trace. rewrite Ht1.
      simpl trace. rewrite <- !app_assoc. reflexivity.
  - reflexivity.
  - simpl. intros H01 H23. apply round2_nonneg.
    assert (H1 : 0 <= round2 (0 + (t1 - t0))).
    { apply round2_nonneg. lra. }
    lra.
Qed.

End Duration.

(** ** The polling loop, the store and shutdown *)

Section Loop.

Context {B : Type}.
Variable env : Environment B.
Variable self : GhiseulMonitor.

Lemma create_driver_Ok (w w' : World) :
  __create_driver env self w = (Ok tt, w') ->
  exists d b,
    webdriver_Chrome env chrome_options (browser w) = (Ok d, b) /\
    w' = {| browser := b; driver := Some d;
            wait := Some (d, render_timeout self);
            OUTPUT := OUTPUT w;
            trace := trace w ++ [EChrome chrome_options] |}.
Proof.
  unfold __create_driver, Chrome. intros E.
  apply bind_Ok in E. destruct E as (d & w1 & E1 & E).
  apply call_inv in E1. destruct E1 as (b & Hb & ->).
  exists d, b. split; [assumption|].
  unfold bind, set_driver, self_driver, set_wait in E. simpl in E.
  now inversion E.
Qed.

(** C4 (amended).  In ephemeral mode an iteration of [run] that
    completes has, in this order: created a fresh session, run the cycle
    on that session, assigned to [OUTPUT] the snapshot that cycle
    returned, slept [refresh] minutes, and only then closed that
    session. *)
Theorem run_iteration_ephemeral_order (refresh : Z) (w w' : World) :
  persistent_driver self = false ->
  run_iteration env self refresh w = (Ok tt, w') ->
  exists d b1 o w2 b3 b4,
    let w1 := {| browser := b1; driver := Some d;
                 wait := Some (d, render_timeout self);
                 OUTPUT := OUTPUT w;
                 trace := trace w ++ [EChrome chrome_options] |} in
    webdriver_Chrome env chrome_options (browser w) = (Ok d, b1) /\
    execute env self w1 = (Ok o, w2) /\
    time_sleep env (inject_Z (refresh * 60)) (browser w2) = (Ok tt, b3) /\
    driver_quit env d b3 = (Ok tt, b4) /\
    new_events w w' =
      EChrome chrome_options :: new_events w1 w2 ++
      [ESetOUTPUT (as_dict o); ESleep (inject_Z (refresh * 60)); EQuit d] /\
    forallb (cycle_event (Some d) (Some (d, render_timeout self)))
      (new_events w1 w2) = true /\
    OUTPUT w' = as_dict o /\
    driver w' = Some d /\
    browser w' = b4.
Proof.
  intros Hp E. unfold run_iteration in E. rewrite Hp in E. cbn [negb] in E.
  apply bind_Ok in E. destruct E as ([] & w1 & E1 & E).
  apply create_driver_Ok in E1. destruct E1 as (d & b1 & Hchrome & ->).
  apply bind_Ok in E. destruct E as (o & w2 & E2 & E).
  pose proof (frame_execute env self _ _ _ _ _ eq_refl eq_refl E2)
    as (Hd2 & Hw2 & Ho2 & cycle & Ht2 & Hc).
  cbn [driver wait OUTPUT trace] in Hd2, Hw2, Ho2, Ht2, Hc.
  apply bind_Ok in E. destruct E as ([] & w3 & E3 & E).
  unfold set_OUTPUT in E3. inversion E3; subst w3; clear E3.
  apply bind_Ok in E. destruct E as ([] & w4 & E4 & E).
  unfold sleep in E4. apply call_inv in E4. destruct E4 as (b3 & Hsleep & ->).
  rewrite (bind_self_driver _ _ d) in E by exact Hd2.
  unfold driver_quit_ in E. apply call_inv in E.
  destruct E as (b4 & Hquit & ->).
  exists d, b1, o, w2, b3, b4. cbn zeta.
  assert (Hcyc : new_events
                   {| browser := b1; driver := Some d;
                      wait := Some (d, render_timeout self);
                      OUTPUT := OUTPUT w;
                      trace := trace w ++ [EChrome chrome_options] |} w2
                 = cycle) by (now apply new_events_app).
  rewrite Hcyc.
  repeat split; try assumption.
  apply new_events_app. cbn [trace logged]. rewrite Ht2, <- !app_assoc.
  reflexivity.
Qed.

(** *** [quit] *)

(** C9 (amended).  When the monitor holds a driver, [quit] makes one
    call, the driver's own [quit], and returns or raises as that call
    does; the monitor keeps holding the same driver, so that a second
    [quit] makes that call again.  When no driver was ever created,
    [quit] raises [AttributeError] and calls nothing. *)
Theorem quit_closes_held_session (w : World) :
  (forall d, driver w = Some d ->
     exists w',
       quit env w = (fst (driver_quit env d (browser w)), w') /\
       new_events w w' = [EQuit d] /\
       driver w' = Some d /\
       quit env w' = call (EQuit d) (driver_quit env d) w') /\
  (driver w = None -> quit env w = (Raise AttributeError, w)).
Proof.
  split.
  - intros d Hd. unfold quit, driver_quit_.
    rewrite (bind_self_driver _ w d Hd). unfold call at 1.
    destruct (driver_quit env d (browser w)) as [r b] eqn:Hq.
    eexists. split; [reflexivity|]. split; [|split].
    + now apply new_events_app.
    + exact Hd.
    + now rewrite (bind_self_driver _ (logged w b (EQuit d)) d Hd).
  - intros Hd. unfold quit, bind, self_driver. now rewrite Hd.
Qed.

End Loop.

(** ** What [OUTPUT] holds *)

Section Store.

Context {B : Type}.
Variable env : Environment B.
Variable self : GhiseulMonitor.

Lemma store_at_app (init : pydict) (tr1 tr2 : list event) :
  store_at init (tr1 ++ tr2) = store_at (store_at init tr1) tr2.
Proof.
  unfold store_at. apply fold_left_app.
Qed.

Lemma store_at_quiet (init : pydict) (tr : list event) :
  existsb is_publish tr = false -> store_at init tr = init.
Proof.
  induction tr as [|ev tr IH]; [reflexivity|].
  simpl. intros H. apply orb_false_elim in H. destruct H as [Hev H].
  destruct ev; try discriminate; now apply IH.
Qed.

(** After calls whose assignments are all snapshots, the store holds what
    it held at first, if none of them is an assignment, and a snapshot
    otherwise. *)
Lemma store_at_cases (tr : list event) :
  forall init,
    Forall snapshot_event tr ->
    (existsb is_publish tr = false /\ store_at init tr = init) \/
    (existsb is_publish tr = true /\
     exists o, store_at init tr = as_dict o /\ coherent o).
Proof.
  induction tr as [|ev tr IH]; intros init Hall.
  - left. now split.
  - inversion Hall as [|? ? Hev Hall']; subst.
    destruct (is_publish ev) eqn:Hp.
    + right. split; [simpl; now rewrite Hp|].
      destruct ev; try discriminate. simpl in Hev.
      destruct Hev as (o' & -> & Hco). simpl.
      destruct (IH (as_dict o') Hall') as [[_ Hs]|[_ Hs]].
      * exists o'. now split.
      * exact Hs.
    + assert (Hs : store_at init (ev :: tr) = store_at init tr).
      { destruct ev; try discriminate; reflexivity. }
      simpl existsb. rewrite Hp, Hs. apply IH, Hall'.
Qed.

Lemma store_since_refl (w : @World B) : store_since w w.
Proof.
  exists []. split; [now rewrite app_nil_r|]. split; [reflexivity|constructor].
Qed.

Lemma store_since_trans (w1 w2 w3 : @World B) :
  store_since w1 w2 -> store_since w2 w3 -> store_since w1 w3.
Proof.
  intros (evs & Ht & Ho & Hall) (evs' & Ht' & Ho' & Hall').
  exists (evs ++ evs'). split; [now rewrite Ht', Ht, app_assoc|].
  split.
  - now rewrite store_at_app, <- Ho.
  - apply Forall_app. now split.
Qed.

Lemma store_since_logged (w : @World B) b ev :
  is_publish ev = false -> store_since w (logged w b ev).
Proof.
  intros Hev. exists [ev]. split; [reflexivity|]. split.
  - simpl. symmetry. apply (store_at_quiet _ [ev]). simpl. now rewrite Hev.
  - constructor; [|constructor]. destruct ev; try discriminate; exact I.
Qed.

Lemma extends_store_since P (w w' : @World B) :
  (forall ev, P ev = true -> is_publish ev = false) ->
  extends P w w' -> store_since w w'.
Proof.
  intros HP (_ & _ & Ho & evs & Ht & Hall).
  exists evs. split; [assumption|].
  rewrite forallb_forall in Hall. split.
  - rewrite Ho. symmetry. apply store_at_quiet.
    destruct (existsb is_publish evs) eqn:Hex; [|reflexivity].
    apply existsb_exists in Hex. destruct Hex as (ev & Hin & Hpub).
    rewrite (HP ev (Hall ev Hin)) in Hpub. discriminate.
  - apply Forall_forall. intros ev Hin.
    specialize (HP ev (Hall ev Hin)).
    destruct ev; try discriminate; exact I.
Qed.

Lemma publishes_ret {A} (a : A) : publishes (B:=B) (ret a).
Proof.
  intros w r w' E. inversion E; subst. apply store_since_refl.
Qed.

Lemma publishes_bind {A C} (m : M A) (k : A -> M C) :
  publishes (B:=B) m ->
  (forall a, (exists w w1, m w = (Ok a, w1)) -> publishes (k a)) ->
  publishes (bind m k).
Proof.
  intros Hm Hk w r w' E. unfold bind in E.
  destruct (m w) as [[a|e] w1] eqn:Em.
  - apply (store_since_trans w w1 w'); [eapply Hm; eauto|].
    eapply Hk; eauto.
  - inversion E; subst. eapply Hm; eauto.
Qed.

Lemma publishes_call {A} ev (f : B -> result A * B) :
  is_publish ev = false -> publishes (call ev f).
Proof.
  intros Hev w r w' E. apply call_inv in E. destruct E as (b & _ & ->).
  now apply store_since_logged.
Qed.

Lemma publishes_self_driver : publishes (B:=B) self_driver.
Proof.
  intros w r w' E. unfold self_driver in E.
  destruct (driver w); inversion E; subst; apply store_since_refl.
Qed.

Lemma publishes_set_driver d : publishes (B:=B) (set_driver d).
Proof.
  intros w r w' E. inversion E; subst.
  exists []. split; [simpl; now rewrite app_nil_r|].
  split; [reflexivity|constructor].
Qed.

Lemma publishes_set_wait wt : publishes (B:=B) (set_wait wt).
Proof.
  intros w r w' E. inversion E; subst.
  exists []. split; [simpl; now rewrite app_nil_r|].
  split; [reflexivity|constructor].
Qed.

Lemma publishes_set_OUTPUT (o : Output) :
  coherent o -> publishes (B:=B) (set_OUTPUT (as_dict o)).
Proof.
  intros Ho w r w' E. inversion E; subst.
  exists [ESetOUTPUT (as_dict o)]. split; [reflexivity|].
  split; [reflexivity|]. constructor; [|constructor]. now exists o.
Qed.

Lemma cycle_event_not_publish dv wv ev :
  cycle_event dv wv ev = true -> is_publish ev = false.
Proof.
  destruct ev; simpl; auto; discriminate.
Qed.

Lemma publishes_execute : publishes (execute env self).
Proof.
  intros w r w' E.
  apply (extends_store_since (cycle_event (driver w) (wait w))).
  - apply cycle_event_not_publish.
  - eapply frame_execute; eauto.
Qed.

Lemma execute_coherent (o : Output) :
  (exists w w1, execute env self w = (Ok o, w1)) -> coherent o.
Proof.
  intros (w & w1 & E).
  exact (execute_flows_spec env self flows w w1 o NoDup_flows E).
Qed.

Ltac publish_step :=
  first
    [ apply publishes_ret
    | apply publishes_self_driver
    | apply publishes_set_driver
    | apply publishes_set_wait
    | apply publishes_execute
    | apply publishes_call; reflexivity
    | apply publishes_set_OUTPUT; now apply execute_coherent
    | apply publishes_bind; [|intros ? ?]
    | match goal with |- publishes (if ?c then _ else _) => destruct c end ].

Lemma publishes_run_iteration refresh :
  publishes (run_iteration env self refresh).
Proof.
  unfold run_iteration, __create_driver, Chrome, sleep, driver_quit_.
  repeat publish_step.
Qed.

(** The store only ever holds what it held at the start or the snapshot
    of a completed cycle, however far [run] gets and however it ends. *)
Lemma publishes_run n refresh : publishes (run env self n refresh).
Proof.
  induction n as [|n IH]; simpl.
  - apply publishes_ret.
  - apply publishes_bind; [apply publishes_run_iteration|intros ? _; exact IH].
Qed.

End Store.

(** ** The snapshot a read returns *)

Section Latest.

Context {B : Type}.
Variable env : Environment B.
Variable self : GhiseulMonitor.

Lemma cycles_published_quiet (base evs : list event) :
  existsb is_publish evs = false -> cycles_published env self base evs.
Proof.
  intros Hq pre d post ->. rewrite existsb_app in Hq. simpl in Hq.
  rewrite orb_true_r in Hq. discriminate.
Qed.

Lemma cycles_published_app (base evs1 evs2 : list event) :
  cycles_published env self base evs1 ->
  cycles_published env self (base ++ evs1) evs2 ->
  cycles_published env self base (evs1 ++ evs2).
Proof.
  intros H1 H2 pre d post Heq.
  apply app_eq_app in Heq. destruct Heq as (l & [[Ha Hb]|[Ha Hb]]).
  - destruct l as [|ev l].
    + rewrite app_nil_r in Ha. subst pre. simpl in Hb.
      destruct (H2 [] d post (eq_sym Hb))
        as (w1 & o & w2 & st & E & Ht1 & Hp & Ht & Hd).
      symmetry in Hp. apply app_eq_nil in Hp. destruct Hp as [-> Hn].
      exists w1, o, w2, evs1. rewrite Hn.
      rewrite !app_nil_r in *. now repeat split.
    + simpl in Hb. inversion Hb; subst ev.
      apply (H1 pre d l). assumption.
  - destruct (H2 l d post Hb)
      as (w1 & o & w2 & st & E & Ht1 & Hp & Ht & Hd).
    exists w1, o, w2, (evs1 ++ st). subst pre.
    rewrite <- app_assoc in Ht1, Ht. split; [assumption|].
    split; [assumption|]. split; [|now split].
    rewrite <- app_assoc. now f_equal.
Qed.

Lemma tracked_quiet {A} (m : @M B A) :
  (forall w r w', m w = (r, w') ->
     OUTPUT w' = OUTPUT w /\
     exists evs, trace w' = trace w ++ evs /\
                 existsb is_publish evs = false) ->
  tracked env self m.
Proof.
  intros H w r w' E. destruct (H w r w' E) as (Ho & evs & Ht & Hq).
  exists evs. split; [assumption|]. split.
  - now rewrite store_at_quiet.
  - now apply cycles_published_quiet.
Qed.

Lemma tracked_ret {A} (a : A) : tracked env self (ret (B:=B) a).
Proof.
  apply tracked_quiet. intros w r w' E. inversion E; subst.
  split; [reflexivity|]. exists []. now rewrite app_nil_r.
Qed.

Lemma tracked_bind {A C} (m : @M B A) (k : A -> M C) :
  tracked env self m -> (forall a, tracked env self (k a)) ->
  tracked env self (bind m k).
Proof.
  intros Hm Hk w r w' E. unfold bind in E.
  destruct (m w) as [[a|e] w1] eqn:Em.
  - destruct (Hm _ _ _ Em) as (evs1 & Ht1 & Ho1 & Hc1).
    destruct (Hk a _ _ _ E) as (evs2 & Ht2 & Ho2 & Hc2).
    exists (evs1 ++ evs2). split; [now rewrite Ht2, Ht1, app_assoc|].
    split.
    + now rewrite Ho2, Ho1, store_at_app.
    + apply cycles_published_app; [assumption|]. now rewrite <- Ht1.
  - inversion E; subst. eapply Hm; eauto.
Qed.

Lemma tracked_call {A} ev (f : B -> result A * B) :
  is_publish ev = false -> tracked env self (call ev f).
Proof.
  intros Hev. apply tracked_quiet. intros w r w' E.
  apply call_inv in E. destruct E as (b & _ & ->).
  split; [reflexivity|]. exists [ev]. split; [reflexivity|].
  simpl. now rewrite Hev.
Qed.

Lemma tracked_self_driver : tracked env self (self_driver (B:=B)).
Proof.
  apply tracked_quiet. intros w r w' E. unfold self_driver in E.
  assert (Hw : w' = w) by (destruct (driver w); now inversion E).
  subst w'. split; [reflexivity|]. exists []. now rewrite app_nil_r.
Qed.

Lemma tracked_create_driver : tracked env self (__create_driver env self).
Proof.
  apply tracked_quiet. intros w r w' E.
  unfold __create_driver, Chrome, bind, call, set_driver, self_driver,
    set_wait in E.
  destruct (webdriver_Chrome env chrome_options (browser w)) as [[d|e] b];
    cbn in E; inversion E; subst; clear E; cbn;
    (split; [reflexivity|]); exists [EChrome chrome_options]; now split.
Qed.

(** The one assignment among calls that end with it. *)
Lemma publish_after_quiet (quiet pre post : list event) (d d' : pydict) :
  existsb is_publish quiet = false ->
  quiet ++ [ESetOUTPUT d'] = pre ++ ESetOUTPUT d :: post ->
  pre = quiet /\ d = d' /\ post = [].
Proof.
  revert pre. induction quiet as [|ev quiet IH]; intros pre Hq Heq.
  - destruct pre as [|ev' pre]; simpl in Heq.
    + inversion Heq. now repeat split.
    + inversion Heq. destruct pre; discriminate.
  - simpl in Hq. apply orb_false_iff in Hq. destruct Hq as [Hev Hq].
    destruct pre as [|ev' pre]; simpl in Heq.
    + inversion Heq; subst ev. discriminate.
    + inversion Heq; subst ev'.
      destruct (IH pre Hq H1) as (-> & -> & ->). now repeat split.
Qed.

(** The cycle and the assignment that follows it. *)
Lemma tracked_cycle_then_publish {C} (k : unit -> @M B C) :
  (forall u, tracked env self (k u)) ->
  tracked env self
    (bind (execute env self) (fun o => bind (set_OUTPUT (as_dict o)) k)).
Proof.
  intros Hk w r w' E. unfold bind at 1 in E.
  destruct (execute env self w) as [[o|e] w2] eqn:E2.
  - pose proof (frame_execute env self _ _ _ _ _ eq_refl eq_refl E2)
      as (_ & _ & Ho2 & cycle & Ht2 & Hc).
    unfold bind, set_OUTPUT in E.
    destruct (Hk tt _ _ _ E) as (evs3 & Ht3 & Ho3 & Hc3).
    cbn [trace OUTPUT] in Ht3, Ho3, Hc3.
    assert (Hq : existsb is_publish cycle = false).
    { destruct (existsb is_publish cycle) eqn:Hex; [|reflexivity].
      apply existsb_exists in Hex. destruct Hex as (ev & Hin & Hp).
      rewrite forallb_forall in Hc.
      rewrite (cycle_event_not_publish _ _ _ (Hc ev Hin)) in Hp.
      discriminate. }
    exists ((cycle ++ [ESetOUTPUT (as_dict o)]) ++ evs3). split; [|split].
    + rewrite Ht3, Ht2, <- !app_assoc. reflexivity.
    + rewrite Ho3, !store_at_app. reflexivity.
    + apply cycles_published_app.
      * intros pre d post Heq.
        destruct (publish_after_quiet _ _ _ _ _ Hq Heq) as (-> & -> & _).
        exists w, o, w2, [].
        rewrite app_nil_r. rewrite (new_events_app w w2 cycle Ht2).
        now repeat split.
      * rewrite app_assoc, <- Ht2. exact Hc3.
  - inversion E; subst.
    pose proof (frame_execute env self _ _ _ _ _ eq_refl eq_refl E2)
      as (_ & _ & Ho2 & cycle & Ht2 & Hc).
    exists cycle. split; [assumption|].
    assert (Hq : existsb is_publish cycle = false).
    { destruct (existsb is_publish cycle) eqn:Hex; [|reflexivity].
      apply existsb_exists in Hex. destruct Hex as (ev & Hin & Hp).
      rewrite forallb_forall in Hc.
      rewrite (cycle_event_not_publish _ _ _ (Hc ev Hin)) in Hp.
      discriminate. }
    split; [now rewrite store_at_quiet|now apply cycles_published_quiet].
Qed.

Lemma tracked_run_iteration refresh :
  tracked env self (run_iteration env self refresh).
Proof.
  unfold run_iteration, sleep, driver_quit_.
  apply tracked_bind.
  { destruct (negb (persistent_driver self));
      [apply tracked_create_driver|apply tracked_ret]. }
  intros _. apply tracked_cycle_then_publish. intros _.
  apply tracked_bind; [now apply tracked_call|]. intros _.
  destruct (negb (persistent_driver self)); [|apply tracked_ret].
  apply tracked_bind; [apply tracked_self_driver|].
  intros d. now apply tracked_call.
Qed.

Lemma tracked_run n refresh : tracked env self (run env self n refresh).
Proof.
  induction n as [|n IH]; simpl.
  - apply tracked_ret.
  - apply tracked_bind; [apply tracked_run_iteration|intros _; exact IH].
Qed.

(** What the store holds after some calls: what it held at first when
    none is an assignment, and otherwise what the last assignment among
    them assigned. *)
Lemma store_at_last (held : pydict) (tr : list event) :
  (existsb is_publish tr = false /\ store_at held tr = held) \/
  (exists pre d rest,
     tr = pre ++ ESetOUTPUT d :: rest /\
     existsb is_publish rest = false /\
     store_at held tr = d).
Proof.
  revert held. induction tr as [|ev tr IH]; intros held.
  - left. now split.
  - assert (Hstep : store_at held (ev :: tr)
                    = store_at (match ev with ESetOUTPUT o => o
                                            | _ => held end) tr)
      by reflexivity.
    destruct (IH (match ev with ESetOUTPUT o => o | _ => held end))
      as [[Hq Hs]|(pre & d & rest & -> & Hq & Hs)].
    + destruct (is_publish ev) eqn:Hp.
      * right. destruct ev; try discriminate.
        exists [], o, tr. now rewrite Hstep, Hs.
      * left. simpl existsb. rewrite Hp, Hq. split; [reflexivity|].
        rewrite Hstep, Hs. destruct ev; try discriminate; reflexivity.
    + right. exists (ev :: pre), d, rest. now rewrite Hstep, Hs.
Qed.

(** The state in which [run] starts has had no assignment. *)
Lemma init_quiet (b : B) :
  OUTPUT (snd (__init__ env self (start b))) = [].
Proof.
  unfold __init__. destruct (persistent_driver self); [|reflexivity].
  unfold __create_driver, Chrome, bind, call, set_driver, self_driver,
    set_wait. simpl.
  destruct (webdriver_Chrome env chrome_options b) as [[d|e] b1]; reflexivity.
Qed.

(** C8 (amended).  A read of the status route returns the mapping last
    assigned to [OUTPUT].  At whatever point of the progress of [run] the
    read is made, that mapping is, until a cycle has completed, the empty
    mapping with which the process starts, and from then on the latest
    snapshot: the mapping returned by [execute] in the last cycle
    completed before the read, assigned right after that cycle; it has
    exactly the fields [flows], [success], [error], [duration] and
    [date]. *)
Theorem monitor_route_after_first_cycle (n : nat) (refresh : Z) (b : B) :
  let w0 := snd (__init__ env self (start b)) in
  let w' := snd (run env self n refresh w0) in
  monitor_route w' = store_at [] (new_events w0 w') /\
  forall before after,
    new_events w0 w' = before ++ after ->
    (existsb is_publish before = false /\ store_at [] before = []) \/
    (existsb is_publish before = true /\
     exists started rest o w1 w2,
       execute env self w1 = (Ok o, w2) /\
       trace w1 = trace w0 ++ started /\
       before = started ++ new_events w1 w2
                  ++ ESetOUTPUT (as_dict o) :: rest /\
       existsb is_publish rest = false /\
       store_at [] before = as_dict o /\
       keys (store_at [] before) = status_fields).
Proof.
  intros w0 w'. pose proof (init_quiet b) as H0. fold w0 in H0.
  subst w'. destruct (run env self n refresh w0) as [r w1] eqn:E.
  apply tracked_run in E. destruct E as (evs & Ht & Ho & Hc).
  cbn [snd]. rewrite (new_events_app w0 w1 evs Ht). unfold monitor_route.
  split; [congruence|].
  intros before after ->.
  destruct (store_at_last [] before)
    as [Hq|(pre & d & rest & -> & Hq & Hs)]; [now left|].
  right. split.
  { rewrite existsb_app. simpl. now rewrite orb_true_r. }
  destruct (Hc pre d (rest ++ after))
    as (wa & o & wb & st & Ex & Hta & Hp & Htb & ->).
  { rewrite <- app_assoc. reflexivity. }
  exists st, rest, o, wa, wb. rewrite Hs, Hp, <- app_assoc.
  now repeat split.
Qed.


End Latest.

(** * Runs on the scripted environment *)

(** ** C1, C2: the snapshot *)


Lemma execute_success_iff_all_flows_witness :
  exists o w',
    execute Scripted.env (Scripted.monitor true) Scripted.login_form_missing
      = (Ok o, w') /\
    o_success o = false /\
    (o_success o = true <->
     forall flow v, In (flow, v) (o_flows o) -> v = true).
Proof.
  eexists _, _. split; [vm_compute; reflexivity|].
  split; [reflexivity|].
  refine (proj2 (execute_success_iff_all_flows
                   Scripted.env (Scripted.monitor true)
                   Scripted.login_form_missing _ _ _)).
  vm_compute; reflexivity.
Defined.

(** ** C3: failures inside a step *)



(** ** C4: the order within an iteration *)

(** An iteration in ephemeral mode that completes, in which the session is
    not closed between the writing of the snapshot and the sleep. *)
Lemma run_iteration_sleeps_before_closing :
  fst (run_iteration Scripted.env (Scripted.monitor false) 10
         Scripted.ephemeral) = Ok tt /\
  closes_before_sleeping
    (new_events Scripted.ephemeral
       (snd (run_iteration Scripted.env (Scripted.monitor false) 10
               Scripted.ephemeral))) = false.
Proof.
  split; vm_compute; reflexivity.
Qed.

Lemma run_iteration_ephemeral_order_witness :
  let w := Scripted.ephemeral in
  let w' := snd (run_iteration Scripted.env (Scripted.monitor false) 10 w) in
  exists d b1 o w2 b3 b4,
    let w1 := {| browser := b1; driver := Some d;
                 wait := Some (d, render_timeout (Scripted.monitor false));
                 OUTPUT := OUTPUT w;
                 trace := trace w ++ [EChrome chrome_options] |} in
    webdriver_Chrome Scripted.env chrome_options (browser w) = (Ok d, b1) /\
    execute Scripted.env (Scripted.monitor false) w1 = (Ok o, w2) /\
    time_sleep Scripted.env (inject_Z (10 * 60)) (browser w2) = (Ok tt, b3) /\
    driver_quit Scripted.env d b3 = (Ok tt, b4) /\
    new_events w w' =
      EChrome chrome_options :: new_events w1 w2 ++
      [ESetOUTPUT (as_dict o); ESleep (inject_Z (10 * 60)); EQuit d] /\
    forallb (cycle_event (Some d)
               (Some (d, render_timeout (Scripted.monitor false))))
      (new_events w1 w2) = true /\
    OUTPUT w' = as_dict o /\
    driver w' = Some d /\
    browser w' = b4.
Proof.
  intros w w'.
  apply (run_iteration_ephemeral_order Scripted.env (Scripted.monitor false)
           10 w w').
  - reflexivity.
  - vm_compute; reflexivity.
Defined.

(** ** C5: the show button *)

(** C5.  The cycle in which the sign-in succeeds and the wait for the
    show button of institution 123 times out: [flows] and [success] are
    as specified, and the message of the error field is spelled
    "instituion". *)
Theorem debit_show_button_failure_snapshot :
  fst (execute Scripted.env (Scripted.monitor true)
         Scripted.show_button_missing)
  = Ok {| o_flows := [("login", true); ("debit", false)];
          o_success := false;
          o_error := "DEBIT: Could not find show button for instituion; ";
          o_duration := 32;
          o_date := "2024-03-01 12:00:00" |} /\
  "DEBIT: Could not find show button for instituion; "%string
  <> "DEBIT: Could not find show button for institution; "%string.
Proof.
  split; [vm_compute; reflexivity|discriminate].
Qed.

(** ** C6: the duration *)

(** Steps of 1.004 s and 2.004 s give 3.0, the rounded sum being 3.01; a
    clock set back gives a negative duration. *)
Lemma execute_duration_not_rounded_sum :
  (exists o w',
     execute Scripted.env (Scripted.monitor true) Scripted.healthy
       = (Ok o, w') /\
     clock_reads (new_events Scripted.healthy w')
       = [10; 11004 # 1000; 11004 # 1000; 13008 # 1000] /\
     o_duration o = 3 /\
     ~ o_duration o ==
       round2 (((11004 # 1000) - 10) + ((13008 # 1000) - (11004 # 1000)))) /\
  (exists o w',
     execute Scripted.env (Scripted.monitor true) Scripted.clock_set_back
       = (Ok o, w') /\
     clock_reads (new_events Scripted.clock_set_back w') = [10; 9; 9; 9] /\
     o_duration o < 0).
Proof.
  split.
  - eexists _, _. split; [vm_compute; reflexivity|].
    split; [vm_compute; reflexivity|]. split; [reflexivity|].
    vm_compute. discriminate.
  - eexists _, _. split; [vm_compute; reflexivity|].
    split; [vm_compute; reflexivity|]. vm_compute. reflexivity.
Qed.

Lemma execute_duration_accumulates_rounded_witness :
  exists o w',
    execute Scripted.env (Scripted.monitor true) Scripted.healthy
      = (Ok o, w') /\
    exists t0 t1 t2 t3,
      clock_reads (new_events Scripted.healthy w') = [t0; t1; t2; t3] /\
      o_duration o = round2 (round2 (0 + (t1 - t0)) + (t3 - t2)) /\
      (t0 <= t1 -> t2 <= t3 -> 0 <= o_duration o).
Proof.
  eexists _, _. split; [vm_compute; reflexivity|].
  apply (execute_duration_accumulates_rounded
           Scripted.env (Scripted.monitor true) Scripted.healthy).
  vm_compute; reflexivity.
Defined.

(** ** C7: already signed in *)

(** The portal redirects, and the browser then fails when asked for its
    location a second time, for the warning: the step does not return
    [(True, "")], the exception leaves it, the cycle and the loop. *)
Lemma login_redirect_warning_read_raises :
  let w := Scenarios.redirect_then_location_fails in
  let b1 := snd (driver_get Scripted.env 9%nat login_page (browser w)) in
  driver w = Some 9%nat /\
  fst (driver_get Scripted.env 9%nat login_page (browser w)) = Ok tt /\
  fst (driver_current_url Scripted.env 9%nat b1) = Ok debit_page /\
  debit_page <> login_page /\
  fst (_login Scripted.env (Scripted.monitor true) w)
    = Raise WebDriverException /\
  fst (_login Scripted.env (Scripted.monitor true) w)
    <> Ok (true, ""%string) /\
  existsb is_lookup
    (new_events w (snd (_login Scripted.env (Scripted.monitor true) w)))
    = false /\
  fst (execute Scripted.env (Scripted.monitor true) w)
    = Raise WebDriverException /\
  fst (run Scripted.env (Scripted.monitor true) 3 10 w)
    = Raise WebDriverException.
Proof.
  intros w b1.
  split; [reflexivity|]. split; [vm_compute; reflexivity|].
  split; [vm_compute; reflexivity|]. split; [discriminate|].
  split; [vm_compute; reflexivity|]. split; [vm_compute; discriminate|].
  split; [vm_compute; reflexivity|].
  split; vm_compute; reflexivity.
Qed.

Lemma login_redirect_short_circuit_witness :
  exists w',
    _login Scripted.env (Scripted.monitor true) Scripted.already_signed_in
      = (Ok (true, ""%string), w') /\
    browser w' = {| Scripted.replies := []; Scripted.clock := [] |} /\
    new_events Scripted.already_signed_in w'
      = [EGet 9%nat login_page; ECurrentUrl 9%nat; ECurrentUrl 9%nat] /\
    existsb is_lookup (new_events Scripted.already_signed_in w') = false.
Proof.
  eapply (login_redirect_short_circuit Scripted.env (Scripted.monitor true)
            Scripted.already_signed_in 9%nat _ debit_page _
            (Ok debit_page) _).
  - reflexivity.
  - vm_compute; reflexivity.
  - vm_compute; reflexivity.
  - discriminate.
  - vm_compute; reflexivity.
Defined.

(** ** C8: the route before the first cycle *)

(** At process start, and until the first cycle completes, the route
    returns the empty mapping: none of the five fields is there. *)
Lemma monitor_route_empty_before_first_cycle :
  monitor_route Scripted.healthy = [] /\
  keys (monitor_route Scripted.healthy) <> status_fields /\
  ~ In "flows"%string (keys (monitor_route Scripted.healthy)).
Proof.
  split; [reflexivity|]. split; [discriminate|]. intros [].
Qed.

(** A read in the middle of the first cycle returns the empty mapping; a
    read during the sleep that follows the cycle returns the snapshot
    that the cycle returned. *)
Lemma monitor_route_after_first_cycle_witness :
  let w0 := Scripted.healthy in
  let w' := snd (run Scripted.env (Scripted.monitor true) 1 10 w0) in
  let evs := new_events w0 w' in
  store_at [] (firstn 5 evs) = [] /\
  (exists o,
     fst (execute Scripted.env (Scripted.monitor true) w0) = Ok o /\
     store_at [] evs = as_dict o) /\
  ((existsb is_publish evs = false /\ store_at [] evs = []) \/
   (existsb is_publish evs = true /\
    exists started rest o w1 w2,
      execute Scripted.env (Scripted.monitor true) w1 = (Ok o, w2) /\
      trace w1 = trace w0 ++ started /\
      evs = started ++ new_events w1 w2
              ++ ESetOUTPUT (as_dict o) :: rest /\
      existsb is_publish rest = false /\
      store_at [] evs = as_dict o /\
      keys (store_at [] evs) = status_fields)).
Proof.
  intros w0 w' evs. split; [vm_compute; reflexivity|].
  split; [eexists; split; vm_compute; reflexivity|].
  apply (proj2 (monitor_route_after_first_cycle
                  Scripted.env (Scripted.monitor true) 1 10
                  {| Scripted.replies :=
                       Scripted.Obj 9%nat
                       :: Scripted.login_ok ++ Scripted.debit_ok;
                     Scripted.clock :=
                       [10; 11004 # 1000; 11004 # 1000; 13008 # 1000] |})
          evs []).
  symmetry. apply app_nil_r.
Defined.

(** ** C9: shutdown *)

(** In ephemeral mode before the first iteration there is no driver:
    [quit] raises. *)
Lemma quit_without_session_raises :
  driver (Scripted.booted false [] []) = None /\
  quit Scripted.env (Scripted.booted false [] [])
  = (Raise AttributeError, Scripted.booted false [] []).
Proof.
  split; reflexivity.
Qed.

Lemma quit_closes_held_session_witness :
  exists w',
    quit Scripted.env Scripted.healthy
    = (fst (driver_quit Scripted.env 9%nat (browser Scripted.healthy)), w') /\
    new_events Scripted.healthy w' = [EQuit 9%nat] /\
    driver w' = Some 9%nat /\
    quit Scripted.env w'
    = call (EQuit 9%nat) (driver_quit Scripted.env 9%nat) w'.
Proof.
  apply (proj1 (quit_closes_held_session Scripted.env Scripted.healthy)).
  reflexivity.
Defined.

(** ** C10: a read that runs along with the loop *)


(** * Further properties *)

(** ** The life of the session *)

Section Lifecycle.

Context {B : Type}.
Variable env : Environment B.
Variable self : GhiseulMonitor.

(** X1.  [__create_driver] makes one call, the creation of a Chrome
    session with the five fixed options.  When it returns, the monitor
    holds the session that call returned and a wait on it with the
    configured timeout; when the creation raises, the exception leaves
    and the monitor holds what it held.  [OUTPUT] is not touched. *)
Theorem create_driver_outcome (w w' : World) (r : result unit) :
  __create_driver env self w = (r, w') ->
  new_events w w' = [EChrome chrome_options] /\
  OUTPUT w' = OUTPUT w /\
  match r with
  | Ok _ =>
      exists d,
        webdriver_Chrome env chrome_options (browser w)
        = (Ok d, browser w') /\
        driver w' = Some d /\
        wait w' = Some (d, render_timeout self)
  | Raise e =>
      webdriver_Chrome env chrome_options (browser w)
      = (Raise e, browser w') /\
      driver w' = driver w /\ wait w' = wait w
  end.
Proof.
  unfold __create_driver, Chrome, bind, call, set_driver, self_driver,
    set_wait.
  destruct (webdriver_Chrome env chrome_options (browser w)) as [[d|e] b];
    cbn; intros E; inversion E; subst; clear E; cbn.
  - split; [now apply new_events_app|]. split; [reflexivity|]. now exists d.
  - split; [now apply new_events_app|]. now repeat split.
Qed.

Lemma keeps_ret {A} J P (a : A) : keeps (B:=B) J P (ret a).
Proof.
  intros w r w' HJ E. inversion E; subst. split; [assumption|].
  exists []. split; [now rewrite app_nil_r|constructor].
Qed.

Lemma keeps_bind {A C} J P (m : @M B A) (k : A -> M C) :
  keeps J P m -> (forall a, keeps J P (k a)) -> keeps J P (bind m k).
Proof.
  intros Hm Hk w r w' HJ E. unfold bind in E.
  destruct (m w) as [[a|e] w1] eqn:Em.
  - destruct (Hm _ _ _ HJ Em) as (HJ1 & evs1 & Ht1 & HP1).
    destruct (Hk a _ _ _ HJ1 E) as (HJ2 & evs2 & Ht2 & HP2).
    split; [assumption|]. exists (evs1 ++ evs2). split.
    + now rewrite Ht2, Ht1, app_assoc.
    + apply Forall_app. now split.
  - inversion E; subst. eapply Hm; eauto.
Qed.

Lemma keeps_call {A} J (P : event -> Prop) ev (f : B -> result A * B) :
  P ev -> keeps J P (call ev f).
Proof.
  intros HP w r w' HJ E. apply call_inv in E. destruct E as (b & _ & ->).
  split; [exact HJ|]. exists [ev]. split; [reflexivity|].
  constructor; [assumption|constructor].
Qed.

Lemma keeps_set_OUTPUT J (P : event -> Prop) o :
  P (ESetOUTPUT o) -> keeps (B:=B) J P (set_OUTPUT o).
Proof.
  intros HP w r w' HJ E. inversion E; subst.
  split; [exact HJ|]. exists [ESetOUTPUT o]. split; [reflexivity|].
  constructor; [assumption|constructor].
Qed.

Lemma keeps_self_driver J P : keeps (B:=B) J P self_driver.
Proof.
  intros w r w' HJ E. unfold self_driver in E.
  assert (Hw : w' = w) by (destruct (driver w); now inversion E).
  subst w'. split; [assumption|].
  exists []. split; [now rewrite app_nil_r|constructor].
Qed.

(** A computation that assigns no attribute keeps any [J]; its calls
    satisfy [P] when, under [J], those allowed by [Q] do. *)
Lemma keeps_frame {A} J (P : event -> Prop)
  (Q : option session -> option (session * Z) -> event -> bool)
  (m : @M B A) :
  (forall dv wv ev, J dv wv -> Q dv wv ev = true -> P ev) ->
  (forall dv wv, frame dv wv (Q dv wv) m) ->
  keeps J P m.
Proof.
  intros HQ Hm w r w' HJ E.
  destruct (Hm _ _ w r w' eq_refl eq_refl E) as (Hd & Hw & _ & evs & Ht & Hall).
  split; [now rewrite Hd, Hw|]. exists evs. split; [assumption|].
  rewrite forallb_forall in Hall. apply Forall_forall. intros ev Hin.
  eapply HQ; eauto.
Qed.

Lemma keeps_create_driver (P : event -> Prop) :
  P (EChrome chrome_options) ->
  keeps (held self) P (__create_driver env self).
Proof.
  intros HP w r w' HJ E.
  unfold __create_driver, Chrome, bind, call, set_driver, self_driver,
    set_wait in E.
  destruct (webdriver_Chrome env chrome_options (browser w)) as [[d|e] b];
    cbn in E; inversion E; subst; clear E; cbn.
  - split; [reflexivity|]. exists [EChrome chrome_options].
    split; [reflexivity|]. constructor; [assumption|constructor].
  - split; [exact HJ|]. exists [EChrome chrome_options].
    split; [reflexivity|]. constructor; [assumption|constructor].
Qed.

Lemma bounded_cycle_event dv wv ev :
  held self dv wv -> cycle_event dv wv ev = true -> bounded_wait self ev.
Proof.
  unfold held. intros -> H. destruct ev; simpl; auto.
  simpl in H. destruct dv as [d'|]; simpl in H; [|discriminate].
  apply andb_prop in H. destruct H as [_ H]. now apply Z.eqb_eq in H.
Qed.

Lemma keeps_held_run_iteration refresh :
  keeps (held self) (bounded_wait self) (run_iteration env self refresh).
Proof.
  unfold run_iteration, sleep, driver_quit_.
  apply keeps_bind.
  { destruct (negb (persistent_driver self));
      [apply keeps_create_driver; exact I|apply keeps_ret]. }
  intros _. apply keeps_bind.
  { apply (keeps_frame _ _ cycle_event);
      [apply bounded_cycle_event|apply frame_execute]. }
  intros o. apply keeps_bind; [apply keeps_set_OUTPUT; exact I|].
  intros _. apply keeps_bind; [apply keeps_call; exact I|].
  intros _. destruct (negb (persistent_driver self)); [|apply keeps_ret].
  apply keeps_bind; [apply keeps_self_driver|].
  intros d. apply keeps_call. exact I.
Qed.

Lemma keeps_run {J} {P : event -> Prop} refresh :
  keeps J P (run_iteration env self refresh) ->
  forall n, keeps J P (run env self n refresh).
Proof.
  intros Hit n. induction n as [|n IH]; simpl.
  - apply keeps_ret.
  - apply keeps_bind; [exact Hit|intros _; exact IH].
Qed.

(** X2.  From process start, however far [run] gets and however it ends,
    the wait the monitor holds is the one made for the driver it holds
    with the configured render timeout, and every wait for an element that
    was made was bounded by that timeout. *)
Theorem run_waits_bounded_by_render_timeout (n : nat) (refresh : Z) (b : B) :
  let w0 := snd (__init__ env self (start b)) in
  let w' := snd (run env self n refresh w0) in
  held self (driver w') (wait w') /\
  Forall (bounded_wait self) (trace w').
Proof.
  intros w0 w'.
  assert (H0 : held self (driver w0) (wait w0) /\
               Forall (bounded_wait self) (trace w0)).
  { subst w0. unfold __init__.
    destruct (persistent_driver self).
    - destruct (__create_driver env self (start b)) as [r w1] eqn:E.
      destruct (keeps_create_driver (bounded_wait self) I _ _ _
                  (eq_refl : held self (driver (start b)) (wait (start b))) E)
        as (HJ & evs & Ht & Hall).
      simpl. split; [assumption|]. now rewrite Ht.
    - simpl. split; [reflexivity|constructor]. }
  destruct H0 as [HJ0 Hall0].
  subst w'. destruct (run env self n refresh w0) as [r w1] eqn:E.
  destruct (keeps_run refresh (keeps_held_run_iteration refresh) n
              _ _ _ HJ0 E) as (HJ & evs & Ht & Hall).
  simpl. split; [assumption|]. rewrite Ht. apply Forall_app. now split.
Qed.

End Lifecycle.

(** ** The two driver modes *)

Section Modes.

Context {B : Type}.
Variable env : Environment B.
Variable self : GhiseulMonitor.





(** X4.  In ephemeral mode, when the cycle of an iteration raises, the
    exception ends the iteration and the loop; [OUTPUT] keeps what it
    held, and the session created for that cycle is still held and was
    not closed. *)
Theorem ephemeral_failed_cycle_leaves_session_open
  (refresh : Z) (w w1 w2 : World) (e : exn) :
  persistent_driver self = false ->
  __create_driver env self w = (Ok tt, w1) ->
  execute env self w1 = (Raise e, w2) ->
  run_iteration env self refresh w = (Raise e, w2) /\
  (forall n, run env self (S n) refresh w = (Raise e, w2)) /\
  OUTPUT w2 = OUTPUT w /\
  (exists d, driver w1 = Some d /\ driver w2 = Some d) /\
  existsb is_publish (new_events w w2) = false /\
  existsb is_quit (new_events w w2) = false.
Proof.
  intros Hp E1 E2.
  assert (Hit : run_iteration env self refresh w = (Raise e, w2)).
  { unfold run_iteration. rewrite Hp. cbn [negb]. unfold bind.
    now rewrite E1, E2. }
  split; [exact Hit|]. split.
  { intros n. simpl. unfold bind. now rewrite Hit. }
  apply create_driver_Ok in E1. destruct E1 as (d & b & _ & ->).
  apply (frame_execute env self _ _ _ _ _ eq_refl eq_refl) in E2.
  destruct E2 as (Hd & _ & Ho & cycle & Ht & Hc). simpl in *.
  split; [assumption|]. split; [now exists d|].
  rewrite (new_events_app w w2 (EChrome chrome_options :: cycle))
    by (rewrite Ht, <- app_assoc; reflexivity).
  rewrite forallb_forall in Hc.
  split.
  - simpl. destruct (existsb is_publish cycle) eqn:Hex; [|reflexivity].
    apply existsb_exists in Hex. destruct Hex as (ev & Hin & Hq).
    specialize (Hc ev Hin). destruct ev; discriminate.
  - simpl. destruct (existsb is_quit cycle) eqn:Hex; [|reflexivity].
    apply existsb_exists in Hex. destruct Hex as (ev & Hin & Hq).
    specialize (Hc ev Hin). destruct ev; discriminate.
Qed.

Lemma create_driver_trace (w w' : World) (r : result unit) :
  __create_driver env self w = (r, w') ->
  trace w' = trace w ++ [EChrome chrome_options].
Proof.
  unfold __create_driver, Chrome, bind, call, set_driver, self_driver,
    set_wait.
  destruct (webdriver_Chrome env chrome_options (browser w)) as [[d|e] b];
    cbn; intros E; inversion E; subst; reflexivity.
Qed.

Lemma keeps_any_create_driver (P : event -> Prop) :
  P (EChrome chrome_options) ->
  keeps (fun _ _ => True) P (__create_driver env self).
Proof.
  intros HP w r w' _ E. split; [exact I|].
  exists [EChrome chrome_options]. split.
  - eapply create_driver_trace; eauto.
  - constructor; [assumption|constructor].
Qed.

Lemma filter_none (f : event -> bool) (evs : list event) :
  Forall (fun ev => f ev = false) evs -> filter f evs = [].
Proof.
  induction 1 as [|ev evs Hev _ IH]; simpl; [reflexivity|].
  now rewrite Hev.
Qed.

Lemma run_iteration_one_publish (refresh : Z) (w w' : World) :
  run_iteration env self refresh w = (Ok tt, w') ->
  exists evs, trace w' = trace w ++ evs /\
              List.length (filter is_publish evs) = 1%nat.
Proof.
  set (T := fun (_ : option session) (_ : option (session * Z)) => True).
  set (P := fun ev => is_publish ev = false).
  unfold run_iteration, sleep, driver_quit_. intros E.
  apply bind_Ok in E. destruct E as (u & w1 & E1 & E).
  assert (H1 : keeps T P (if negb (persistent_driver self)
                          then __create_driver env self else ret tt)).
  { destruct (negb (persistent_driver self));
      [now apply keeps_any_create_driver|apply keeps_ret]. }
  destruct (H1 _ _ _ I E1) as (_ & evs1 & Ht1 & Hq1).
  apply bind_Ok in E. destruct E as (o & w2 & E2 & E).
  apply (frame_execute env self _ _ _ _ _ eq_refl eq_refl) in E2.
  destruct E2 as (_ & _ & _ & evs2 & Ht2 & Hq2).
  apply bind_Ok in E. destruct E as ([] & w3 & E3 & E).
  unfold set_OUTPUT in E3. inversion E3; subst w3; clear E3.
  apply bind_Ok in E. destruct E as ([] & w4 & E4 & E).
  apply call_inv in E4. destruct E4 as (b4 & _ & ->).
  assert (H5 : keeps T P (if negb (persistent_driver self)
                          then bind self_driver (fun d =>
                                 call (EQuit d) (driver_quit env d))
                          else ret tt)).
  { destruct (negb (persistent_driver self)); [|apply keeps_ret].
    apply keeps_bind; [apply keeps_self_driver|].
    intros d. now apply keeps_call. }
  destruct (H5 _ _ _ I E) as (_ & evs5 & Ht5 & Hq5).
  exists (evs1 ++ evs2 ++ [ESetOUTPUT (as_dict o);
                           ESleep (inject_Z (refresh * 60))] ++ evs5).
  split.
  - rewrite Ht5. simpl. rewrite Ht2, Ht1, <- !app_assoc. reflexivity.
  - assert (Hq2' : Forall P evs2).
    { apply Forall_forall. intros ev Hin. rewrite forallb_forall in Hq2.
      eapply cycle_event_not_publish. apply Hq2, Hin. }
    rewrite !filter_app, (filter_none _ _ Hq1), (filter_none _ _ Hq2'),
      (filter_none _ _ Hq5). reflexivity.
Qed.

Lemma run_publishes (n : nat) (refresh : Z) :
  forall w w' : World,
    run env self n refresh w = (Ok tt, w') ->
    exists evs, trace w' = trace w ++ evs /\
                List.length (filter is_publish evs) = n.
Proof.
  induction n as [|n IH]; intros w w' E; simpl in E.
  - inversion E; subst. exists []. split; [now rewrite app_nil_r|reflexivity].
  - apply bind_Ok in E. destruct E as ([] & w1 & E1 & E).
    apply run_iteration_one_publish in E1. destruct E1 as (evs1 & Ht1 & Hn1).
    apply IH in E. destruct E as (evs & Ht & Hn).
    exists (evs1 ++ evs). split; [now rewrite Ht, Ht1, app_assoc|].
    rewrite filter_app, length_app, Hn1, Hn. reflexivity.
Qed.

(** X5.  When [n] iterations of [run] have completed, [OUTPUT] has been
    assigned exactly [n] times, once per iteration, and holds the snapshot
    assigned last. *)
Theorem run_publishes_once_per_iteration (n : nat) (refresh : Z)
  (w w' : World) :
  run env self n refresh w = (Ok tt, w') ->
  List.length (filter is_publish (new_events w w')) = n /\
  OUTPUT w' = store_at (OUTPUT w) (new_events w w').
Proof.
  intros E. pose proof (publishes_run env self n refresh _ _ _ E) as Hs.
  apply run_publishes in E. destruct E as (evs & Ht & Hn).
  rewrite (new_events_app w w' evs Ht). split; [assumption|].
  destruct Hs as (evs' & Ht' & Ho & _).
  rewrite Ht in Ht'. apply app_inv_head in Ht'. now subst evs'.
Qed.

Lemma cycle_event_not_chrome dv wv ev :
  cycle_event dv wv ev = true -> is_chrome ev = false.
Proof.
  destruct ev; simpl; auto; discriminate.
Qed.

Lemma cycle_event_not_quit dv wv ev :
  cycle_event dv wv ev = true -> is_quit ev = false.
Proof.
  destruct ev; simpl; auto; discriminate.
Qed.

Lemma filter_cycle_none (f : event -> bool) dv wv (evs : list event) :
  (forall ev, cycle_event dv wv ev = true -> f ev = false) ->
  forallb (cycle_event dv wv) evs = true -> filter f evs = [].
Proof.
  intros Hf Hall. apply filter_none. apply Forall_forall. intros ev Hin.
  rewrite forallb_forall in Hall. auto.
Qed.

Lemma run_iteration_ephemeral_sessions (refresh : Z) (w w' : World) :
  persistent_driver self = false ->
  run_iteration env self refresh w = (Ok tt, w') ->
  exists evs, trace w' = trace w ++ evs /\
              List.length (filter is_chrome evs) = 1%nat /\
              List.length (filter is_quit evs) = 1%nat.
Proof.
  intros Hp E. unfold run_iteration in E. rewrite Hp in E. cbn [negb] in E.
  apply bind_Ok in E. destruct E as ([] & w1 & E1 & E).
  apply create_driver_Ok in E1. destruct E1 as (d & b & _ & ->).
  apply bind_Ok in E. destruct E as (o & w2 & E2 & E).
  apply (frame_execute env self _ _ _ _ _ eq_refl eq_refl) in E2.
  destruct E2 as (Hd2 & _ & _ & cycle & Ht2 & Hc). simpl in *.
  apply bind_Ok in E. destruct E as ([] & w3 & E3 & E).
  unfold set_OUTPUT in E3. inversion E3; subst w3; clear E3.
  apply bind_Ok in E. destruct E as ([] & w4 & E4 & E).
  apply call_inv in E4. destruct E4 as (b4 & _ & ->).
  rewrite (bind_self_driver _ _ d) in E by exact Hd2.
  apply call_inv in E. destruct E as (b5 & _ & ->).
  exists (EChrome chrome_options :: cycle ++
          [ESetOUTPUT (as_dict o); ESleep (inject_Z (refresh * 60)); EQuit d]).
  split; [simpl; rewrite Ht2, <- !app_assoc; reflexivity|].
  assert (Hc1 : filter is_chrome cycle = []).
  { apply (filter_cycle_none _ _ _ _ (cycle_event_not_chrome _ _) Hc). }
  assert (Hc2 : filter is_quit cycle = []).
  { apply (filter_cycle_none _ _ _ _ (cycle_event_not_quit _ _) Hc). }
  simpl. rewrite !filter_app, Hc1, Hc2. split; reflexivity.
Qed.

(** X21.  In ephemeral mode, when [n] iterations of [run] have completed,
    [n] sessions were created and [n] were closed: no session is left
    open by a completed iteration. *)
Theorem ephemeral_sessions_balanced (n : nat) (refresh : Z) :
  persistent_driver self = false ->
  forall w w' : World,
    run env self n refresh w = (Ok tt, w') ->
    List.length (filter is_chrome (new_events w w')) = n /\
    List.length (filter is_quit (new_events w w')) = n.
Proof.
  intros Hp.
  assert (H : forall w w' : World,
            run env self n refresh w = (Ok tt, w') ->
            exists evs, trace w' = trace w ++ evs /\
                        List.length (filter is_chrome evs) = n /\
                        List.length (filter is_quit evs) = n).
  { induction n as [|m IH]; intros w w' E; simpl in E.
    - inversion E; subst. exists []. now rewrite app_nil_r.
    - apply bind_Ok in E. destruct E as ([] & w1 & E1 & E).
      apply (run_iteration_ephemeral_sessions _ _ _ Hp) in E1.
      destruct E1 as (evs1 & Ht1 & Hc1 & Hq1).
      apply IH in E. destruct E as (evs & Ht & Hc & Hq).
      exists (evs1 ++ evs). split; [now rewrite Ht, Ht1, app_assoc|].
      rewrite !filter_app, !length_app, Hc1, Hq1, Hc, Hq. now split. }
  intros w w' E. destruct (H w w' E) as (evs & Ht & Hc & Hq).
  rewrite (new_events_app w w' evs Ht). now split.
Qed.

End Modes.

(** ** The ways through a flow step *)

(** The next thing the step does in [E]: read an attribute, compare the
    location, or call the environment; one case per outcome. *)
Ltac next_call E :=
  first
    [ match goal with H : driver ?w = _ |- _ => rewrite H in E end
    | match goal with H : wait ?w = _ |- _ => rewrite H in E end
    | match type of E with
      | context [match driver ?w with _ => _ end] =>
          let H := fresh "Hdrv" in destruct (driver w) eqn:H
      | context [match wait ?w with _ => _ end] =>
          let H := fresh "Hwait" in destruct (wait w) as [[? ?]|] eqn:H
      | context [String.eqb ?a ?b] =>
          destruct (String.eqb_spec a b)
      | context [let (_, _) := ?X in _] =>
          lazymatch X with
          | context [match _ with _ => _ end] => fail
          | _ => destruct X as [[?|?] ?] eqn:?
          end
      end ].

(** Every way through the step whose run is [E]. *)
Ltac paths E :=
  unfold _login, _debit, bind, try_except, self_driver, self_wait, get,
    current_url, until_visible, find_element, click, send_keys, submit,
    sleep, call, ret in E;
  repeat (cbn [browser driver wait OUTPUT trace logged fst snd negb] in E;
          next_call E);
  cbn [browser driver wait OUTPUT trace logged fst snd negb] in E;
  inversion E; subst; clear E.

Ltac events :=
  apply new_events_app; cbn [trace logged]; rewrite <- ?app_assoc;
  reflexivity.

Section Paths.

Context {B : Type}.
Variable env : Environment B.
Variable self : GhiseulMonitor.

(** A step that returns gives success with no message, or failure with
    a message. *)
Lemma login_step_result (w w' : @World B) (r : bool * string) :
  _login env self w = (Ok r, w') -> step_result r.
Proof.
  intros E. paths E; first [now left | now right].
Qed.

Lemma debit_step_result (w w' : @World B) (r : bool * string) :
  _debit env self w = (Ok r, w') -> step_result r.
Proof.
  intros E. paths E; first [now left | now right].
Qed.

(** X6.  Whatever the browser does, [_login] returns one of four pairs:
    success with no message, or a failure with the message of the block
    that failed. *)
Theorem login_results (w w' : @World B) (r : bool * string) :
  _login env self w = (Ok r, w') ->
  In r [ (true, ""%string);
         (false, "Could not find login for or input fields"%string);
         (false, "Could not fill in login form"%string);
         (false, "Could not submit login form"%string) ].
Proof.
  intros E. paths E; simpl; tauto.
Qed.

(** X7.  Whatever the browser does, [_debit] returns one of four pairs:
    success with no message, or a failure with the message of the wait
    that failed. *)
Theorem debit_results (w w' : @World B) (r : bool * string) :
  _debit env self w = (Ok r, w') ->
  In r [ (true, ""%string);
         (false, "Could not find institution element"%string);
         (false, "Could not find show button for instituion"%string);
         (false, "Could not find pay button for instituion"%string) ].
Proof.
  intros E. paths E; simpl; tauto.
Qed.

Lemma append_empty_r (s : string) : (s ++ "")%string = s.
Proof.
  induction s as [|c s IH]; simpl; [reflexivity|now rewrite IH].
Qed.

Ltac each_step H :=
  let b := fresh "b" in
  let m := fresh "m" in
  let Hb := fresh "Hb" in
  let Hm := fresh "Hm" in
  match type of H with
  | step_result ?r =>
      destruct r as [b m]; destruct H as [H|[Hb Hm]];
      [ inversion H; subst; clear H
      | cbn in Hb, Hm; subst b; destruct m; [discriminate|clear Hm] ]
  end.

(** X8.  In every snapshot that [execute] returns, [success] is true
    exactly when the error text is empty. *)
Theorem execute_success_iff_no_error (w w' : World) (o : Output) :
  execute env self w = (Ok o, w') ->
  (o_success o = true <-> o_error o = ""%string).
Proof.
  intros E. apply execute_inv in E.
  destruct E as (date & w0 & t0 & w1 & r1 & w2 & t1 & w3 & t2 & w4 &
                 r2 & w5 & t3 & _ & _ & E2 & _ & _ & E5 & _ & ->).
  apply login_step_result in E2. apply debit_step_result in E5.
  each_step E2; each_step E5; cbn; split; intros H;
    first [reflexivity | discriminate].
Qed.

(** X9.  The error text of a snapshot names each failed flow with its
    message: ["LOGIN: <message>; "] when the sign-in failed, followed by
    ["DEBIT: <message>; "] when the debit check failed, and nothing for a
    flow that succeeded. *)
Theorem execute_error_text (w w' : World) (o : Output) :
  execute env self w = (Ok o, w') ->
  exists r1 r2,
    cycle_steps env self w r1 r2 w' /\
    o_error o = (error_part "LOGIN" r1 ++ error_part "DEBIT" r2)%string.
Proof.
  intros E. apply execute_inv in E.
  destruct E as (date & w0 & t0 & w1 & r1 & w2 & t1 & w3 & t2 & w4 &
                 r2 & w5 & t3 & E0 & E1 & E2 & E3 & E4 & E5 & E6 & ->).
  exists r1, r2. split.
  - exists date, w0, t0, w1, w2, t1, w3, t2, w4, w5, t3. repeat split; assumption.
  - apply login_step_result in E2. apply debit_step_result in E5.
    each_step E2; each_step E5; cbn; rewrite ?append_empty_r; reflexivity.
Qed.

(** X10.  [_login] returns success in two ways only: at once when the
    portal has redirected away from the login page, or after the whole
    sign-in in this order: the form and the three fields are found, the
    user name is typed into the user-name field, the decoy field is
    clicked before the password field, the password is typed into the
    password field, and the form is submitted, with the pacing delay
    after each of the two fills. *)
Theorem login_success_calls (w w' : @World B) :
  _login env self w = (Ok (true, ""%string), w') ->
  exists d,
    driver w = Some d /\
    (new_events w w' = [EGet d login_page; ECurrentUrl d; ECurrentUrl d] \/
     exists wd t login_form username_field password_field passwordT_field,
       wait w = Some (wd, t) /\
       new_events w w' =
         [ EGet d login_page; ECurrentUrl d;
           EWaitVisible wd t login_form_element;
           EFindElement d login_username_element;
           EFindElement d login_password_element;
           EFindElement d login_passwordT_element;
           EClick username_field;
           ESendKeys username_field (username self);
           ESleep short_delay;
           EClick passwordT_field;
           EClick password_field;
           ESendKeys password_field (password self);
           ESleep short_delay;
           ESubmit login_form ]).
Proof.
  intros E. paths E; eexists; (split; [reflexivity|]);
    first [ left; events
          | right; do 6 eexists; split; [reflexivity|]; events ].
Qed.

(** X11.  [_debit] returns success in one way only: having read the
    location, and loaded the debit page when and only when the location
    was another page, it has waited for the institution element, waited
    for the show button and clicked it, and waited for the pay form, in
    this order. *)
Theorem debit_success_calls (w w' : @World B) :
  _debit env self w = (Ok (true, ""%string), w') ->
  exists d wd t show_element url b,
    driver w = Some d /\ wait w = Some (wd, t) /\
    driver_current_url env d (browser w) = (Ok url, b) /\
    new_events w w' =
      ECurrentUrl d ::
      (if url =? debit_page then [] else [EGet d debit_page]) ++
      [ EWaitVisible wd t (institution self);
        EWaitVisible wd t (debit_show_element ++ institution self)%string;
        EClick show_element;
        EWaitVisible wd t (debit_pay_form ++ institution self)%string ].
Proof.
  intros E. paths E; do 6 eexists;
    (split; [reflexivity|]); (split; [reflexivity|]);
    (split; [eassumption|]);
    first [ rewrite String.eqb_refl; events
          | match goal with H : _ <> debit_page |- _ =>
              apply String.eqb_neq in H; rewrite H end; events ].
Qed.

(** X12.  When [_login] reports that it could not find the form or the
    fields, it has clicked nothing, typed nothing and submitted nothing:
    the credentials were not sent to the page. *)
Theorem login_lookup_failure_types_nothing (w w' : @World B) :
  _login env self w
  = (Ok (false, "Could not find login for or input fields"%string), w') ->
  existsb is_interaction (new_events w w') = false.
Proof.
  intros E. paths E;
    match goal with
    | |- existsb _ (new_events ?w ?w') = _ =>
        let evs := fresh "evs" in
        evar (evs : list event);
        assert (Hev : new_events w w' = evs) by (subst evs; events);
        subst evs; rewrite Hev; reflexivity
    end.
Qed.

End Paths.

(** ** The fields of a snapshot *)

Section Fields.

Context {B : Type}.
Variable env : Environment B.
Variable self : GhiseulMonitor.

(** The calls of a cycle that returns: the date, then each step between
    two readings of the clock. *)
Lemma execute_events (w w' : World) (o : Output) :
  execute env self w = (Ok o, w') ->
  exists t0 evs1 t1 t2 evs2 t3,
    new_events w w' =
      [ENow (o_date o); ETime t0] ++ evs1 ++ [ETime t1; ETime t2] ++ evs2
      ++ [ETime t3] /\
    forallb (step_event (driver w) (wait w)) evs1 = true /\
    forallb (step_event (driver w) (wait w)) evs2 = true /\
    o_duration o = round2 (round2 (0 + (t1 - t0)) + (t3 - t2)).
Proof.
  intros E. apply execute_inv in E.
  destruct E as (date & w0 & t0 & w1 & r1 & w2 & t1 & w3 & t2 & w4 &
                 r2 & w5 & t3 & E0 & E1 & E2 & E3 & E4 & E5 & E6 & ->).
  apply now_inv in E0. destruct E0 as (b0 & ->).
  apply time_inv in E1. destruct E1 as (b1 & ->).
  apply (frame__login env self _ _ _ _ _ eq_refl eq_refl) in E2.
  destruct E2 as (Hd2 & Hw2 & _ & evs1 & Ht1 & Hs1).
  apply time_inv in E3. destruct E3 as (b3 & ->).
  apply time_inv in E4. destruct E4 as (b4 & ->).
  apply (frame__debit env self _ _ _ _ _ eq_refl eq_refl) in E5.
  destruct E5 as (_ & _ & _ & evs2 & Ht2 & Hs2).
  apply time_inv in E6. destruct E6 as (b6 & ->).
  exists t0, evs1, t1, t2, evs2, t3. cbn in *.
  rewrite Hd2, Hw2 in Hs2.
  repeat split; try assumption.
  apply new_events_app. cbn. rewrite Ht2. cbn. rewrite Ht1. cbn.
  rewrite <- !app_assoc. reflexivity.
Qed.

(** X13.  The date of a snapshot is read first, before the clock and
    before any call to the browser; the clock is read four times, around
    each step, and never by a step. *)
Theorem execute_date_read_first (w w' : World) (o : Output) :
  execute env self w = (Ok o, w') ->
  exists rest,
    new_events w w' = ENow (o_date o) :: rest /\
    List.length (clock_reads rest) = 4%nat /\
    Forall (fun ev => match ev with ENow _ => False | _ => True end) rest.
Proof.
  intros E. apply execute_events in E.
  destruct E as (t0 & evs1 & t1 & t2 & evs2 & t3 & Hev & Hs1 & Hs2 & _).
  exists ([ETime t0] ++ evs1 ++ [ETime t1; ETime t2] ++ evs2 ++ [ETime t3]).
  split; [exact Hev|].
  assert (Hno : forall evs, forallb (step_event (driver w) (wait w)) evs = true ->
                  Forall (fun ev => match ev with ENow _ => False | _ => True end)
                    evs).
  { intros evs H. apply Forall_forall. intros ev Hin.
    rewrite forallb_forall in H. specialize (H ev Hin).
    destruct ev; try exact I. discriminate. }
  split.
  - rewrite !clock_reads_app.
    rewrite (clock_reads_step _ _ _ Hs1), (clock_reads_step _ _ _ Hs2).
    reflexivity.
  - repeat first [ apply Forall_app; split
                 | now apply Hno
                 | constructor; [exact I|]
                 | constructor ].
Qed.

(** X15.  The driver storage location the monitor was given has no effect:
    construction, the cycles, the loop and the calls they make are the
    same whatever it is; the session is always created with the fixed
    options. *)
Theorem driver_dir_has_no_effect (dir : string) (n : nat) (refresh : Z)
  (w : World) :
  __init__ env (with_driver_dir self dir) w = __init__ env self w /\
  execute env (with_driver_dir self dir) w = execute env self w /\
  run env (with_driver_dir self dir) n refresh w = run env self n refresh w.
Proof.
  split; [reflexivity|]. split; [reflexivity|].
  revert w. induction n as [|n IH]; intros w; [reflexivity|].
  simpl. unfold bind.
  change (run_iteration env (with_driver_dir self dir) refresh w)
    with (run_iteration env self refresh w).
  destruct (run_iteration env self refresh w) as [[u|e] w1];
    [apply IH|reflexivity].
Qed.

End Fields.

(** ** The exceptions that leave a step and a cycle *)

Section Escapes.

Context {B : Type}.
Variable env : Environment B.
Variable self : GhiseulMonitor.



(** X19.  When [execute] raises, the exception is one that left a step:
    [_login], or [_debit] run after [_login] had returned.  Nothing else
    in a cycle raises, and [OUTPUT] and the monitor's driver are as they
    were. *)
Theorem execute_raises_only_with_a_step (w w' : World) (e : exn) :
  execute env self w = (Raise e, w') ->
  ((exists w1, _login env self w1 = (Raise e, w')) \/
   (exists w1 r1 w2 w4,
      _login env self w1 = (Ok r1, w2) /\
      _debit env self w4 = (Raise e, w'))) /\
  OUTPUT w' = OUTPUT w /\ driver w' = driver w /\ wait w' = wait w.
Proof.
  intros E. split.
  - rewrite execute_unfold in E. unfold bind in E.
    destruct (now env w) as [[date|e0] w0] eqn:E0;
      [|unfold now in E0; destruct (datetime_now env (browser w));
        discriminate].
    destruct (time env w0) as [[t0|e1] w1] eqn:E1;
      [|unfold time in E1; destruct (time_time env (browser w0));
        discriminate].
    destruct (_login env self w1) as [[r1|e2] w2] eqn:E2.
    + destruct (time env w2) as [[t1|e3] w3] eqn:E3;
        [|unfold time in E3; destruct (time_time env (browser w2));
          discriminate].
      destruct (time env w3) as [[t2|e4] w4] eqn:E4;
        [|unfold time in E4; destruct (time_time env (browser w3));
          discriminate].
      destruct (_debit env self w4) as [[r2|e5] w5] eqn:E5.
      * destruct (time env w5) as [[t3|e6] w6] eqn:E6;
          [discriminate|unfold time in E6;
           destruct (time_time env (browser w5)); discriminate].
      * inversion E; subst. right. now exists w1, r1, w2, w4.
    + inversion E; subst. left. now exists w1.
  - apply (frame_execute env self _ _ _ _ _ eq_refl eq_refl) in E.
    destruct E as (Hd & Hw & Ho & _). now repeat split.
Qed.

(** X20.  A cycle run while the monitor holds no driver (ephemeral mode,
    outside [run]) raises [AttributeError]: it has read the date and the
    clock and called the browser not at all. *)
Theorem execute_without_driver (w : World) :
  driver w = None ->
  exists w' date t0,
    execute env self w = (Raise AttributeError, w') /\
    new_events w w' = [ENow date; ETime t0].
Proof.
  intros Hd. rewrite execute_unfold. unfold bind, now, time.
  destruct (datetime_now env (browser w)) as [date b0].
  cbn [browser logged].
  destruct (time_time env b0) as [t0 b1].
  unfold _login, bind, self_driver. cbn [driver logged]. rewrite Hd.
  eexists _, date, t0. split; [reflexivity|]. events.
Qed.

End Escapes.

(** ** Runs of the further properties *)

Lemma create_driver_outcome_witness :
  let w := start Scenarios.healthy_script in
  let w' := snd (__create_driver Scripted.env (Scripted.monitor true) w) in
  new_events w w' = [EChrome chrome_options] /\
  OUTPUT w' = OUTPUT w /\
  exists d,
    webdriver_Chrome Scripted.env chrome_options (browser w)
    = (Ok d, browser w') /\
    driver w' = Some d /\
    wait w' = Some (d, render_timeout (Scripted.monitor true)).
Proof.
  intros w w'.
  apply (create_driver_outcome Scripted.env (Scripted.monitor true) w w'
           (Ok tt)).
  vm_compute; reflexivity.
Defined.


Lemma ephemeral_failed_cycle_leaves_session_open_witness :
  let w := Scenarios.ephemeral_navigation_fails in
  let w1 := snd (__create_driver Scripted.env (Scripted.monitor false) w) in
  let w2 := snd (execute Scripted.env (Scripted.monitor false) w1) in
  run_iteration Scripted.env (Scripted.monitor false) 10 w
    = (Raise WebDriverException, w2) /\
  (forall n, run Scripted.env (Scripted.monitor false) (S n) 10 w
             = (Raise WebDriverException, w2)) /\
  OUTPUT w2 = OUTPUT w /\
  (exists d, driver w1 = Some d /\ driver w2 = Some d) /\
  existsb is_publish (new_events w w2) = false /\
  existsb is_quit (new_events w w2) = false.
Proof.
  intros w w1 w2.
  apply (ephemeral_failed_cycle_leaves_session_open
           Scripted.env (Scripted.monitor false) 10 w w1 w2).
  - reflexivity.
  - vm_compute; reflexivity.
  - vm_compute; reflexivity.
Defined.

Lemma run_publishes_once_per_iteration_witness :
  let w' := snd (run Scripted.env (Scripted.monitor true) 2 10
                   Scripted.healthy) in
  List.length (filter is_publish (new_events Scripted.healthy w')) = 2%nat /\
  OUTPUT w' = store_at (OUTPUT Scripted.healthy)
                (new_events Scripted.healthy w').
Proof.
  intros w'.
  apply (run_publishes_once_per_iteration
           Scripted.env (Scripted.monitor true) 2 10).
  vm_compute; reflexivity.
Defined.

Lemma login_results_witness :
  exists r w',
    _login Scripted.env (Scripted.monitor true) Scripted.login_form_missing
      = (Ok r, w') /\
    In r [ (true, ""%string);
           (false, "Could not find login for or input fields"%string);
           (false, "Could not fill in login form"%string);
           (false, "Could not submit login form"%string) ].
Proof.
  eexists _, _. split; [vm_compute; reflexivity|].
  eapply (login_results Scripted.env (Scripted.monitor true)
            Scripted.login_form_missing).
  vm_compute; reflexivity.
Defined.

Lemma debit_results_witness :
  exists r w',
    _debit Scripted.env (Scripted.monitor true)
      Scenarios.debit_show_button_missing = (Ok r, w') /\
    In r [ (true, ""%string);
           (false, "Could not find institution element"%string);
           (false, "Could not find show button for instituion"%string);
           (false, "Could not find pay button for instituion"%string) ].
Proof.
  eexists _, _. split; [vm_compute; reflexivity|].
  eapply (debit_results Scripted.env (Scripted.monitor true)
            Scenarios.debit_show_button_missing).
  vm_compute; reflexivity.
Defined.

Lemma execute_success_iff_no_error_witness :
  exists o w',
    execute Scripted.env (Scripted.monitor true) Scripted.login_form_missing
      = (Ok o, w') /\
    (o_success o = true <-> o_error o = ""%string).
Proof.
  eexists _, _. split; [vm_compute; reflexivity|].
  eapply (execute_success_iff_no_error Scripted.env (Scripted.monitor true)
            Scripted.login_form_missing).
  vm_compute; reflexivity.
Defined.

Lemma execute_error_text_witness :
  exists o w',
    execute Scripted.env (Scripted.monitor true) Scripted.login_form_missing
      = (Ok o, w') /\
    o_error o = "LOGIN: Could not find login for or input fields; "%string /\
    exists r1 r2,
      cycle_steps Scripted.env (Scripted.monitor true)
        Scripted.login_form_missing r1 r2 w' /\
      o_error o = (error_part "LOGIN" r1 ++ error_part "DEBIT" r2)%string.
Proof.
  eexists _, _. split; [vm_compute; reflexivity|]. split; [reflexivity|].
  apply (execute_error_text Scripted.env (Scripted.monitor true)
           Scripted.login_form_missing _ _).
  vm_compute; reflexivity.
Defined.

Lemma login_success_calls_witness :
  exists w' d,
    _login Scripted.env (Scripted.monitor true) Scripted.healthy
      = (Ok (true, ""%string), w') /\
    driver Scripted.healthy = Some d /\
    (new_events Scripted.healthy w'
       = [EGet d login_page; ECurrentUrl d; ECurrentUrl d] \/
     exists wd t login_form username_field password_field passwordT_field,
       wait Scripted.healthy = Some (wd, t) /\
       new_events Scripted.healthy w' =
         [ EGet d login_page; ECurrentUrl d;
           EWaitVisible wd t login_form_element;
           EFindElement d login_username_element;
           EFindElement d login_password_element;
           EFindElement d login_passwordT_element;
           EClick username_field;
           ESendKeys username_field (username (Scripted.monitor true));
           ESleep short_delay;
           EClick passwordT_field;
           EClick password_field;
           ESendKeys password_field (password (Scripted.monitor true));
           ESleep short_delay;
           ESubmit login_form ]).
Proof.
  eexists.
  assert (E : _login Scripted.env (Scripted.monitor true) Scripted.healthy
              = (Ok (true, ""%string),
                 snd (_login Scripted.env (Scripted.monitor true)
                        Scripted.healthy)))
    by (vm_compute; reflexivity).
  destruct (login_success_calls Scripted.env (Scripted.monitor true) _ _ E)
    as (d & Hd & H).
  exists d. split; [exact E|]. split; assumption.
Defined.

Lemma debit_success_calls_witness :
  exists w' d wd t show_element url b,
    _debit Scripted.env (Scripted.monitor true) Scenarios.debit_succeeds
      = (Ok (true, ""%string), w') /\
    driver Scenarios.debit_succeeds = Some d /\
    wait Scenarios.debit_succeeds = Some (wd, t) /\
    driver_current_url Scripted.env d (browser Scenarios.debit_succeeds)
      = (Ok url, b) /\
    new_events Scenarios.debit_succeeds w' =
      ECurrentUrl d ::
      (if url =? debit_page then [] else [EGet d debit_page]) ++
      [ EWaitVisible wd t (institution (Scripted.monitor true));
        EWaitVisible wd t
          (debit_show_element ++ institution (Scripted.monitor true))%string;
        EClick show_element;
        EWaitVisible wd t
          (debit_pay_form ++ institution (Scripted.monitor true))%string ].
Proof.
  eexists.
  assert (E : _debit Scripted.env (Scripted.monitor true)
                Scenarios.debit_succeeds
              = (Ok (true, ""%string),
                 snd (_debit Scripted.env (Scripted.monitor true)
                        Scenarios.debit_succeeds)))
    by (vm_compute; reflexivity).
  destruct (debit_success_calls Scripted.env (Scripted.monitor true) _ _ E)
    as (d & wd & t & s & url & b & H).
  exists d, wd, t, s, url, b. split; [exact E|exact H].
Defined.

Lemma login_lookup_failure_types_nothing_witness :
  exists w',
    _login Scripted.env (Scripted.monitor true) Scripted.login_form_missing
    = (Ok (false, "Could not find login for or input fields"%string), w') /\
    existsb is_interaction (new_events Scripted.login_form_missing w') = false.
Proof.
  eexists. split; [vm_compute; reflexivity|].
  apply (login_lookup_failure_types_nothing
           Scripted.env (Scripted.monitor true)).
  vm_compute; reflexivity.
Defined.

Lemma execute_date_read_first_witness :
  exists o w' rest,
    execute Scripted.env (Scripted.monitor true) Scripted.healthy
      = (Ok o, w') /\
    new_events Scripted.healthy w' = ENow (o_date o) :: rest /\
    List.length (clock_reads rest) = 4%nat /\
    Forall (fun ev => match ev with ENow _ => False | _ => True end) rest.
Proof.
  eexists _, _.
  assert (E : execute Scripted.env (Scripted.monitor true) Scripted.healthy
              = (fst (execute Scripted.env (Scripted.monitor true)
                        Scripted.healthy),
                 snd (execute Scripted.env (Scripted.monitor true)
                        Scripted.healthy))) by (vm_compute; reflexivity).
  vm_compute fst in E.
  destruct (execute_date_read_first Scripted.env (Scripted.monitor true)
              _ _ _ E) as (rest & H).
  exists rest. split; [exact E|exact H].
Defined.



Lemma execute_raises_only_with_a_step_witness :
  let w := Scripted.navigation_fails in
  let w' := snd (execute Scripted.env (Scripted.monitor true) w) in
  execute Scripted.env (Scripted.monitor true) w
    = (Raise WebDriverException, w') /\
  ((exists w1, _login Scripted.env (Scripted.monitor true) w1
               = (Raise WebDriverException, w')) \/
   (exists w1 r1 w2 w4,
      _login Scripted.env (Scripted.monitor true) w1 = (Ok r1, w2) /\
      _debit Scripted.env (Scripted.monitor true) w4
      = (Raise WebDriverException, w'))) /\
  OUTPUT w' = OUTPUT w /\ driver w' = driver w /\ wait w' = wait w.
Proof.
  intros w w'.
  assert (E : execute Scripted.env (Scripted.monitor true) w
              = (Raise WebDriverException, w'))
    by (vm_compute; reflexivity).
  split; [exact E|].
  exact (execute_raises_only_with_a_step
           Scripted.env (Scripted.monitor true) w w' WebDriverException E).
Defined.

Lemma execute_without_driver_witness :
  driver Scripted.ephemeral = None /\
  exists w' date t0,
    execute Scripted.env (Scripted.monitor false) Scripted.ephemeral
      = (Raise AttributeError, w') /\
    new_events Scripted.ephemeral w' = [ENow date; ETime t0].
Proof.
  split; [reflexivity|].
  apply (execute_without_driver Scripted.env (Scripted.monitor false)
           Scripted.ephemeral).
  reflexivity.
Defined.

Lemma ephemeral_sessions_balanced_witness :
  let w' := snd (run Scripted.env (Scripted.monitor false) 2 10
                   Scripted.ephemeral) in
  List.length (filter is_chrome (new_events Scripted.ephemeral w')) = 2%nat /\
  List.length (filter is_quit (new_events Scripted.ephemeral w')) = 2%nat.
Proof.
  intros w'.
  apply (ephemeral_sessions_balanced Scripted.env (Scripted.monitor false)
           2 10).
  - reflexivity.
  - vm_compute; reflexivity.
Defined.
